(** * EmissionWiz forecasting core: a shallow embedding and its properties

    The forecasting scripts of the repository (feature building, the
    recursive ridge forecaster, the direct mid-horizon forecaster, the
    baseline blender and the metrics evaluator) are embedded as Rocq
    functions over lists of rows.

    Conventions of the embedding:
    - a pandas DataFrame is a [list] of row records, in row order;
    - a float cell is a [cell = option Q]: [None] is NaN (a missing value),
      [Some q] a finite number, idealised as an exact rational (rounding,
      overflow and infinities of IEEE arithmetic are outside the model);
    - a [KeyError] of an indexed lookup is the outer [None] of an [option];
    - numpy / sklearn numerics the scripts call but do not define (square
      root, sine and cosine, the ridge fit and its prediction) are the
      fields of the class [Numerics]; the scikit-learn calls inside
      [fit_ridge_timeaware] are the fields of the class [Sklearn]. *)

From Stdlib Require Import String Ascii List ZArith QArith Qabs Bool Lia Lqa Permutation
  Sorted.
Import ListNotations.
Local Open Scope Z_scope.

(** ** Part I. Definitions *)

(** *** TimeKey codec ([ym_to_key], [key_to_ym]) *)

Definition ym_to_key (y m : Z) : Z := y * 12 + (m - 1).
Definition key_to_ym (k : Z) : Z * Z := (k / 12, k mod 12 + 1).

(** [range(lo, hi)] of Python. *)
Definition range (lo hi : Z) : list Z :=
  map (fun i => lo + Z.of_nat i) (seq 0 (Z.to_nat (hi - lo))).

(** *** Float cells *)

Definition cell := option Q.

Definition notna (c : cell) : bool := match c with Some _ => true | None => false end.
Definition isna (c : cell) : bool := negb (notna c).

(** Strict comparison of finite floats. *)
Definition Qlt_bool (a b : Q) : bool := negb (Qle_bool b a).

(** Python's builtin [min(a, b)] and [max(a, b)] on two floats: the first
    argument is kept unless the second is strictly smaller (larger). *)
Definition py_min (a b : Q) : Q := if Qlt_bool b a then b else a.
Definition py_max (a b : Q) : Q := if Qlt_bool a b then b else a.

(** *** Climatology ramp weight ([blend_weight], phase4_train_ridge.py) *)

Definition blend_weight (h start end_ : Z) (wmax : Q) : Q :=
  if (end_ <=? start) || Qle_bool wmax 0 then 0%Q
  else if h <=? start then 0%Q
  else if h >=? end_ then wmax
  else (wmax * inject_Z (h - start) / inject_Z (end_ - start))%Q.

(** *** External numerics *)

(** What the scripts call from [math], numpy and scikit-learn without
    defining it.  [month_sin m] is [sin(2*pi*m/12)], [month_cos m] is
    [cos(2*pi*m/12)].  [ridge_fit] and [direct_fit] are the two
    [fit_ridge_timeaware] functions (phase4_train_ridge.py and
    phase4_train_direct_mid.py): scaler and ridge regression fitted on the
    matrix [X], the targets [y] and the candidate strengths [alphas], and
    nothing else.  [predict m x] is
    [m.predict(m._scaler.transform(x))[0]]. *)
Class Numerics := {
  sqrt : Q -> Q;
  month_sin : Z -> Q;
  month_cos : Z -> Q;
  Model : Type;
  ridge_fit : list (list Q) -> list Q -> list Q -> Model;
  direct_fit : list (list Q) -> list Q -> list Q -> Model;
  predict : Model -> list Q -> Q
}.

(** *** Generic frame helpers *)

(** Values of a column without its missing cells ([dropna] on a Series). *)
Definition dropna (l : list cell) : list Q :=
  flat_map (fun c => match c with Some q => [q] | None => [] end) l.

Definition Qsum (l : list Q) : Q := fold_right Qplus 0%Q l.

(** [numpy.mean] of a non-empty array of finite values. *)
Definition mean (l : list Q) : Q := (Qsum l / inject_Z (Z.of_nat (length l)))%Q.

(** The values of a row of cells when none is missing ([None] when
    [isnan(...).any()]). *)
Fixpoint all_values (l : list cell) : option (list Q) :=
  match l with
  | [] => Some []
  | None :: _ => None
  | Some q :: t => match all_values t with Some v => Some (q :: v) | None => None end
  end.

Fixpoint all_rows_values (X : list (list cell)) : option (list (list Q)) :=
  match X with
  | [] => Some []
  | r :: t =>
      match all_values r, all_rows_values t with
      | Some v, Some vs => Some (v :: vs)
      | _, _ => None
      end
  end.

(** Stable sort by insertion, the model of [sort_values] and of the key
    order of [groupby]. *)
Fixpoint insert_sorted {A : Type} (leb : A -> A -> bool) (x : A) (l : list A) : list A :=
  match l with
  | [] => [x]
  | y :: t => if leb x y then x :: l else y :: insert_sorted leb x t
  end.

Definition sort_by {A : Type} (leb : A -> A -> bool) (l : list A) : list A :=
  fold_right (insert_sorted leb) [] l.

(** [df.groupby(key)]: the groups in increasing key order, each with its
    rows in frame order. *)
Definition groupby_string {A : Type} (key : A -> string) (df : list A)
  : list (string * list A) :=
  map (fun c => (c, filter (fun r => String.eqb (key r) c) df))
      (sort_by String.leb (nodup string_dec (map key df))).

(** [f] applied to each element with its position. *)
Fixpoint imap {A B : Type} (f : nat -> A -> B) (i : nat) (l : list A) : list B :=
  match l with
  | [] => []
  | x :: t => f i x :: imap f (S i) t
  end.

(** *** Series store (the anomalies table and [build_lookup]) *)

Record AnomRow := mkAnomRow {
  a_country : string;
  a_year : Z;
  a_month : Z;
  a_temp_c : cell;
  a_clim_temp_c : cell;
  a_anomaly_c : cell
}.

Definition a_key (r : AnomRow) : Z := a_year r * 12 + (a_month r - 1).

(** [L.loc[(country, k)]] on the frame indexed by [build_lookup]: [None]
    is the [KeyError] of an absent key.  (Keys are taken to be unique, as
    the scripts' [float(...)] of the looked-up value requires.) *)
Definition loc (L : list AnomRow) (country : string) (k : Z) : option AnomRow :=
  find (fun r => String.eqb (a_country r) country && (a_key r =? k)) L.

(** *** Feature table (phase3_build_features.py) *)

Inductive FeatCol :=
  | mon_sin | mon_cos | anom_lag1 | anom_lag12
  | roll_mean_3 | roll_std_3 | anom_lag24 | roll_mean_12.

Definition FeatCol_eqb (a b : FeatCol) : bool :=
  match a, b with
  | mon_sin, mon_sin | mon_cos, mon_cos | anom_lag1, anom_lag1
  | anom_lag12, anom_lag12 | roll_mean_3, roll_mean_3
  | roll_std_3, roll_std_3 | anom_lag24, anom_lag24
  | roll_mean_12, roll_mean_12 => true
  | _, _ => false
  end.

Record FeatRow := mkFeatRow {
  f_country : string;
  f_year : Z;
  f_month : Z;
  f_temp_c : cell;
  f_clim_temp_c : cell;
  f_anomaly_c : cell;
  f_mon_sin : cell;
  f_mon_cos : cell;
  f_anom_lag1 : cell;
  f_anom_lag12 : cell;
  f_roll_mean_3 : cell;
  f_roll_std_3 : cell;
  f_anom_lag24 : cell;
  f_roll_mean_12 : cell;
  f_target_anom_t_plus_1 : cell
}.

Definition f_get (c : FeatCol) (r : FeatRow) : cell :=
  match c with
  | mon_sin => f_mon_sin r
  | mon_cos => f_mon_cos r
  | anom_lag1 => f_anom_lag1 r
  | anom_lag12 => f_anom_lag12 r
  | roll_mean_3 => f_roll_mean_3 r
  | roll_std_3 => f_roll_std_3 r
  | anom_lag24 => f_anom_lag24 r
  | roll_mean_12 => f_roll_mean_12 r
  end.

(** The column [k] the trainers add: [year*12 + (month-1)]. *)
Definition f_key (r : FeatRow) : Z := f_year r * 12 + (f_month r - 1).

(** Order of [sort_values("k")]. *)
Definition by_key (a b : FeatRow) : bool := f_key a <=? f_key b.

(** A feature table: the feature columns its file has, and its rows (the
    cells of a column the file lacks are not read). *)
Record FeatTable := mkFeatTable {
  ft_columns : list FeatCol;
  ft_rows : list FeatRow
}.

Definition has_col (cols : list FeatCol) (c : FeatCol) : bool :=
  existsb (FeatCol_eqb c) cols.

(** [Series.shift(n)] for [n >= 0]: values move [n] rows down. *)
Definition shift (n : nat) (s : list cell) : list cell :=
  firstn (length s) (repeat None n ++ s).

(** [Series.shift(-1)]: each row receives the value of the next row. *)
Definition shift_back1 (s : list cell) : list cell :=
  match s with
  | [] => []
  | _ :: t => t ++ [None]
  end.

(** The window of [rolling(w)] ending at position [i]. *)
Definition window (w i : nat) (s : list cell) : list cell :=
  firstn (Nat.min w (S i)) (skipn (S i - w) s).

(** [Series.rolling(w, min_periods=w).agg()]: defined where the window
    holds [w] present values. *)
Definition rolling (w : nat) (agg : list Q -> Q) (s : list cell) : list cell :=
  imap (fun i _ =>
          let vals := dropna (window w i s) in
          if (length vals =? w)%nat then Some (agg vals) else None) 0 s.

(** Population standard deviation ([ddof=0]). *)
Definition std0 `{Numerics} (l : list Q) : Q :=
  let m := mean l in
  sqrt (mean (map (fun v => (v - m) * (v - m))%Q l)).

Definition year_month_leb (r1 r2 : AnomRow) : bool :=
  (a_year r1 <? a_year r2) || ((a_year r1 =? a_year r2) && (a_month r1 <=? a_month r2)).

(** [add_calendar], [add_persistence] and [add_target] on one country's
    rows. *)
Definition add_features `{Numerics} (g : list AnomRow) : list FeatRow :=
  let g := sort_by year_month_leb g in
  let a := map a_anomaly_c g in
  let lag1 := shift 1 a in
  let lag12 := shift 12 a in
  let lag24 := shift 24 a in
  let rm3 := rolling 3 mean (shift 1 a) in
  let rs3 := rolling 3 std0 (shift 1 a) in
  let rm12 := rolling 12 mean (shift 1 a) in
  let tgt := shift_back1 a in
  imap (fun i r =>
          mkFeatRow (a_country r) (a_year r) (a_month r)
            (a_temp_c r) (a_clim_temp_c r) (a_anomaly_c r)
            (Some (month_sin (a_month r))) (Some (month_cos (a_month r)))
            (nth i lag1 None) (nth i lag12 None)
            (nth i rm3 None) (nth i rs3 None)
            (nth i lag24 None) (nth i rm12 None)
            (nth i tgt None)) 0 g.

(** The [core] columns of [main]: rows missing any of them are dropped. *)
Definition core_complete (r : FeatRow) : bool :=
  notna (f_anom_lag1 r) && notna (f_anom_lag12 r) && notna (f_roll_mean_3 r)
  && notna (f_roll_std_3 r) && notna (f_target_anom_t_plus_1 r).

Definition base_feature_cols : list FeatCol :=
  [mon_sin; mon_cos; anom_lag1; anom_lag12; roll_mean_3; roll_std_3].

(** [main] of phase3_build_features.py: the feature table of an anomalies
    table. *)
Definition build_features `{Numerics} (drop_optional : bool) (df : list AnomRow) : FeatTable :=
  let d := flat_map (fun cg => add_features (snd cg)) (groupby_string a_country df) in
  mkFeatTable
    (if drop_optional then base_feature_cols
     else base_feature_cols ++ [anom_lag24; roll_mean_12])
    (filter core_complete d).

(** *** Cutoffs and forecast rows *)

(** A row of the cutoffs table with its [cutoff_key] (given, or parsed from
    the text [cutoff_ym] by [ym_to_key]). *)
Record Cutoff := mkCutoff {
  cutoff_key : Z;
  cutoff_ym : string
}.

Record ForecastRow := mkForecastRow {
  fr_country : string;
  fr_year : Z;
  fr_month : Z;
  fr_cutoff_ym : string;
  fr_horizon : Z;
  fr_pred_anom : cell;
  fr_pred_c : cell;
  fr_truth_c : cell;
  fr_model : string
}.

(** NaN-propagating arithmetic on cells. *)
Definition cell_lift2 (f : Q -> Q -> Q) (a b : cell) : cell :=
  match a, b with
  | Some x, Some y => Some (f x y)
  | _, _ => None
  end.

Definition cell_add := cell_lift2 Qplus.
Definition cell_sub := cell_lift2 Qminus.
Definition cell_mul := cell_lift2 Qmult.

(** [numpy.clip(x, lo, hi)]. *)
Definition np_clip (x lo hi : Q) : Q :=
  if Qlt_bool x lo then lo else if Qlt_bool hi x then hi else x.

(** [fillna(method="ffill")] and [fillna(method="bfill")]. *)
Fixpoint ffill_from (last : cell) (s : list cell) : list cell :=
  match s with
  | [] => []
  | Some v :: t => Some v :: ffill_from (Some v) t
  | None :: t => last :: ffill_from last t
  end.

Definition ffill (s : list cell) : list cell := ffill_from None s.
Definition bfill (s : list cell) : list cell := rev (ffill (rev s)).

(** [hist[-n]] when the buffer has [n] entries, else NaN. *)
Definition tail_at (n : nat) (hist : list cell) : cell :=
  if (n <=? length hist)%nat then nth (length hist - n) hist None else None.

(** [hist[-n:]]. *)
Definition last_n {A : Type} (n : nat) (hist : list A) : list A :=
  skipn (length hist - n) hist.

(** *** Recursive ridge forecaster (phase4_train_ridge.py) *)

Module Ridge.

Record Config := mkConfig {
  alphas : list Q;
  min_train_rows : Z;
  damping : Q;
  clip_anom : Q;
  blend_start : Z;
  blend_end : Z;
  blend_max : Q
}.

Definition select_features (columns : list FeatCol) : list FeatCol :=
  base_feature_cols ++ filter (has_col columns) [anom_lag24; roll_mean_12].

(** What a task hands to the fit: the usable columns, the eligible rows,
    and their matrix [X] and targets [y]. *)
Record TrainSet := mkTrainSet {
  ts_use_cols : list FeatCol;
  ts_rows : list FeatRow;
  ts_X : list (list Q);
  ts_y : list Q
}.

(** Lines 138-154 of [main]: the eligibility filter, the minimum-size gate
    and the column selection of one (cutoff, country) task; [None] is
    [continue]. *)
Definition training_set (cfg : Config) (columns base_feature_list : list FeatCol)
    (k_cut : Z) (dfc : list FeatRow) : option TrainSet :=
  let train := filter (fun r => f_key r <=? k_cut) dfc in
  if Z.of_nat (length train) <? min_train_rows cfg then None
  else
    let use_cols :=
      filter (fun c => has_col columns c
                       && negb (existsb (fun r => isna (f_get c r)) train))
             base_feature_list in
    match use_cols with
    | [] => None
    | _ :: _ =>
        let train := filter (fun r => notna (f_target_anom_t_plus_1 r)) train in
        if Z.of_nat (length train) <? min_train_rows cfg then None
        else
          match all_rows_values (map (fun r => map (fun c => f_get c r) use_cols) train),
                all_values (map f_target_anom_t_plus_1 train) with
          | Some X, Some y => Some (mkTrainSet use_cols train X y)
          | _, _ => None
          end
    end.

(** The history buffer at the cutoff: 60 trailing anomalies, gaps filled
    forward then backward. *)
Definition seed_history (L : list AnomRow) (country : string) (k_cut : Z) : list cell :=
  bfill (ffill (map (fun kk => match loc L country kk with
                               | Some r => a_anomaly_c r
                               | None => None
                               end)
                    (range (k_cut - 59) (k_cut + 1)))).

(** The feature dictionary [x] built from the buffer for target month
    [m_tgt]. *)
Definition state_features `{Numerics} (m_tgt : Z) (hist : list cell) (c : FeatCol) : cell :=
  let last3 := dropna (last_n 3 hist) in
  let last12 := dropna (last_n 12 hist) in
  match c with
  | mon_sin => Some (month_sin m_tgt)
  | mon_cos => Some (month_cos m_tgt)
  | anom_lag1 => tail_at 1 hist
  | anom_lag12 => tail_at 12 hist
  | roll_mean_3 => if (length last3 =? 3)%nat then Some (mean last3) else None
  | roll_std_3 => if (length last3 =? 3)%nat then Some (std0 last3) else None
  | anom_lag24 => tail_at 24 hist
  | roll_mean_12 => if (length last12 =? 12)%nat then Some (mean last12) else None
  end.

(** The recursive update of the buffer after a prediction. *)
Definition update_history (cfg : Config) (pred_anom : Q) (hist : list cell) : list cell :=
  let damp := py_max 0 (py_min 1 (damping cfg)) in
  let hist := hist ++ [Some (damp * pred_anom)%Q] in
  if (120 <? length hist)%nat then last_n 120 hist else hist.

(** One pass of the body of [for h in range(1, HMAX+1)]: [None] is
    [break], otherwise the appended row and the updated buffer. *)
Definition horizon_step `{Numerics} (cfg : Config) (L : list AnomRow) (model : Model)
    (use_cols : list FeatCol) (country : string) (cut : Cutoff)
    (h : Z) (hist : list cell) : option (ForecastRow * list cell) :=
  let k_tgt := cutoff_key cut + h in
  let '(y_tgt, m_tgt) := key_to_ym k_tgt in
  match loc L country k_tgt with
  | None => None
  | Some rec =>
      let clim := a_clim_temp_c rec in
      let truth_c := a_temp_c rec in
      match all_values (map (state_features m_tgt hist) use_cols) with
      | None => None
      | Some x =>
          let pred_anom := predict model x in
          let pred_anom :=
            if Qlt_bool 0 (clip_anom cfg)
            then np_clip pred_anom (- clip_anom cfg)%Q (clip_anom cfg)
            else pred_anom in
          let w := blend_weight h (blend_start cfg) (blend_end cfg) (blend_max cfg) in
          let pred_c := cell_add clim (Some ((1 - w) * pred_anom)%Q) in
          Some (mkForecastRow country y_tgt m_tgt (cutoff_ym cut) h
                  (Some pred_anom) pred_c truth_c "ridge",
                update_history cfg pred_anom hist)
      end
  end.

Fixpoint horizon_loop `{Numerics} (cfg : Config) (L : list AnomRow) (model : Model)
    (use_cols : list FeatCol) (country : string) (cut : Cutoff)
    (hs : list Z) (hist : list cell) : list ForecastRow :=
  match hs with
  | [] => []
  | h :: hs' =>
      match horizon_step cfg L model use_cols country cut h hist with
      | None => []
      | Some (row, hist') =>
          row :: horizon_loop cfg L model use_cols country cut hs' hist'
      end
  end.

(** The model a (cutoff, country) task trains, if it trains one. *)
Definition trained_model `{Numerics} (cfg : Config) (columns base_feature_list : list FeatCol)
    (cut : Cutoff) (dfc : list FeatRow) : option Model :=
  match training_set cfg columns base_feature_list (cutoff_key cut)
          (sort_by by_key dfc) with
  | None => None
  | Some ts => Some (ridge_fit (ts_X ts) (ts_y ts) (alphas cfg))
  end.

(** The body of the loop over countries: the rows one (cutoff, country)
    task appends. *)
Definition task `{Numerics} (cfg : Config) (L : list AnomRow) (HMAX : Z)
    (columns base_feature_list : list FeatCol)
    (cut : Cutoff) (country : string) (dfc : list FeatRow) : list ForecastRow :=
  match training_set cfg columns base_feature_list (cutoff_key cut)
          (sort_by by_key dfc) with
  | None => []
  | Some ts =>
      let model := ridge_fit (ts_X ts) (ts_y ts) (alphas cfg) in
      horizon_loop cfg L model (ts_use_cols ts) country cut
        (range 1 (HMAX + 1)) (seed_history L country (cutoff_key cut))
  end.

(** The tasks of a run in execution order: cutoffs outside, countries
    inside. *)
Definition tasks (feat : FeatTable) (cuts : list Cutoff)
  : list (Cutoff * (string * list FeatRow)) :=
  flat_map (fun crow => map (fun cg => (crow, cg))
                            (groupby_string f_country (ft_rows feat))) cuts.

Definition run_tasks `{Numerics} (cfg : Config) (L : list AnomRow) (HMAX : Z)
    (columns base_feature_list : list FeatCol)
    (ts : list (Cutoff * (string * list FeatRow))) : list ForecastRow :=
  flat_map (fun t => task cfg L HMAX columns base_feature_list
                          (fst t) (fst (snd t)) (snd (snd t))) ts.

(** [main]: the forecast rows written to [out_forecasts]. *)
Definition main `{Numerics} (cfg : Config) (feat : FeatTable) (anom : list AnomRow)
    (cuts : list Cutoff) (HMAX : Z) : list ForecastRow :=
  run_tasks cfg anom HMAX (ft_columns feat) (select_features (ft_columns feat))
    (tasks feat cuts).

End Ridge.

(** *** Direct mid-horizon forecaster (phase4_train_direct_mid.py) *)

Definition then_compare (c1 c2 : comparison) : comparison :=
  match c1 with
  | Eq => c2
  | _ => c1
  end.

(** Order of [sort_values(keycols)] with
    [keycols = [country, year, month, cutoff_ym, horizon]]. *)
Definition keycols_compare (a b : ForecastRow) : comparison :=
  then_compare (String.compare (fr_country a) (fr_country b))
    (then_compare (fr_year a ?= fr_year b)
       (then_compare (fr_month a ?= fr_month b)
          (then_compare (String.compare (fr_cutoff_ym a) (fr_cutoff_ym b))
             (fr_horizon a ?= fr_horizon b)))).

Definition keycols_leb (a b : ForecastRow) : bool :=
  match keycols_compare a b with
  | Gt => false
  | _ => true
  end.

Module DirectMid.

Record Cfg := mkCfg {
  h_start : Z;
  h_end : Z;
  alphas : list Q;
  min_train_rows : Z
}.

Definition select_features (columns : list FeatCol) : list FeatCol :=
  base_feature_cols ++ filter (has_col columns) [anom_lag24; roll_mean_12].

(** [targ_at(k)]: the anomaly at [k + h], NaN when the store has no such
    month. *)
Definition targ_at (A : list AnomRow) (country : string) (h k : Z) : cell :=
  match loc A country (k + h) with
  | Some r => a_anomaly_c r
  | None => None
  end.

Record TrainSet := mkTrainSet {
  ts_use_cols : list FeatCol;
  ts_rows : list FeatRow;
  ts_X : list (list Q);
  ts_y : list Q
}.

(** Lines 128-151 of [main]: eligibility filter, gate, column selection
    and direct target of one (cutoff, country, horizon) task; [None] is
    [continue]. *)
Definition training_set (cfg : Cfg) (A : list AnomRow) (columns base_cols : list FeatCol)
    (country : string) (k_cut h : Z) (dfc : list FeatRow) : option TrainSet :=
  let train := filter (fun r => f_key r <=? k_cut - h) dfc in
  if Z.of_nat (length train) <? min_train_rows cfg then None
  else
    let use_cols :=
      filter (fun c => has_col columns c
                       && negb (existsb (fun r => isna (f_get c r)) train))
             base_cols in
    match use_cols with
    | [] => None
    | _ :: _ =>
        let train := filter (fun r => notna (targ_at A country h (f_key r))) train in
        if Z.of_nat (length train) <? min_train_rows cfg then None
        else
          match all_rows_values (map (fun r => map (fun c => f_get c r) use_cols) train),
                all_values (map (fun r => targ_at A country h (f_key r)) train) with
          | Some X, Some y => Some (mkTrainSet use_cols train X y)
          | _, _ => None
          end
    end.

(** The body of [for h in range(...)]: the rows (none or one) a
    (cutoff, country, horizon) task appends; [dfc] is sorted by [k]. *)
Definition task `{Numerics} (cfg : Cfg) (A : list AnomRow) (columns base_cols : list FeatCol)
    (cut : Cutoff) (country : string) (dfc : list FeatRow) (h : Z) : list ForecastRow :=
  let k_cut := cutoff_key cut in
  match training_set cfg A columns base_cols country k_cut h dfc with
  | None => []
  | Some ts =>
      let model := direct_fit (ts_X ts) (ts_y ts) (alphas cfg) in
      let k_tgt := k_cut + h in
      let '(y_tgt, m_tgt) := key_to_ym k_tgt in
      match loc A country k_tgt with
      | None => []
      | Some rec =>
          let clim := a_clim_temp_c rec in
          let truth_c := a_temp_c rec in
          match filter (fun r => f_key r =? k_cut) dfc with
          | [] => []
          | xrow :: _ =>
              match all_values (map (fun c => f_get c xrow) (ts_use_cols ts)) with
              | None => []
              | Some x =>
                  let pred_anom := predict model x in
                  let pred_c := cell_add (Some pred_anom) clim in
                  [mkForecastRow country y_tgt m_tgt (cutoff_ym cut) h
                     (Some pred_anom) pred_c truth_c "ridge_direct"]
              end
          end
      end
  end.

(** The direct rows [mid] of a run: cutoffs, then countries, then the
    horizons [range(h_start, min(h_end, HMAX)+1)]. *)
Definition direct_rows `{Numerics} (cfg : Cfg) (feat : FeatTable) (A : list AnomRow)
    (cuts : list Cutoff) (HMAX : Z) : list ForecastRow :=
  let base_cols := select_features (ft_columns feat) in
  flat_map (fun crow =>
    flat_map (fun cg =>
      let dfc := sort_by by_key (snd cg) in
      flat_map (task cfg A (ft_columns feat) base_cols crow (fst cg) dfc)
               (range (h_start cfg) (Z.min (h_end cfg) HMAX + 1)))
      (groupby_string f_country (ft_rows feat))) cuts.

(** [keep]: the rows of the existing forecasts outside the band. *)
Definition keep (cfg : Cfg) (base : list ForecastRow) : list ForecastRow :=
  filter (fun r => (fr_horizon r <? h_start cfg) || (fr_horizon r >? h_end cfg)) base.

(** The merge at the end of [main]. *)
Definition merge (cfg : Cfg) (base mid : list ForecastRow) : list ForecastRow :=
  sort_by keycols_leb (keep cfg base ++ mid).

(** [main]: the merged forecast table written to [out_forecasts]. *)
Definition main `{Numerics} (cfg : Cfg) (feat : FeatTable) (anom : list AnomRow)
    (cuts : list Cutoff) (HMAX : Z) (base : list ForecastRow) : list ForecastRow :=
  merge cfg base (direct_rows cfg feat anom cuts HMAX).

End DirectMid.

(** *** Horizon buckets ([bucket_name], blender and metrics) *)

Record Bucket := mkBucket {
  b_name : string;
  b_h_start : Z;
  b_h_end : Z
}.

Fixpoint bucket_name (h : Z) (buckets : list Bucket) : string :=
  match buckets with
  | [] => "h_na"
  | b :: t =>
      if (b_h_start b <=? h) && (h <=? b_h_end b) then b_name b
      else bucket_name h t
  end.

Definition cell_abs (a : cell) : cell :=
  match a with
  | Some x => Some (Qabs x)
  | None => None
  end.

(** *** Baseline blender (phase4_blend_with_baselines.py) *)

Module Blend.

(** Equality on [KEYS = [country, year, month, cutoff_ym, horizon]]. *)
Definition same_keys (a b : ForecastRow) : bool :=
  String.eqb (fr_country a) (fr_country b)
  && (fr_year a =? fr_year b) && (fr_month a =? fr_month b)
  && String.eqb (fr_cutoff_ym a) (fr_cutoff_ym b)
  && (fr_horizon a =? fr_horizon b).

(** [left.merge(right[KEYS + [pred_c]], on=KEYS, how="left")]: every left
    row is kept, once per matching right row, or once with NaN. *)
Definition merge_left {A : Type} (key : A -> ForecastRow) (left : list A)
    (right : list ForecastRow) : list (A * cell) :=
  flat_map (fun r =>
              match filter (same_keys (key r)) right with
              | [] => [(r, None)]
              | ms => map (fun b => (r, fr_pred_c b)) ms
              end) left.

(** A row of the joined frame [df]. *)
Record Joined := mkJoined {
  j_row : ForecastRow;
  j_pred_c_clim : cell;
  j_pred_c_lag12 : cell
}.

Definition join (m c l : list ForecastRow) : list Joined :=
  map (fun p => mkJoined (fst (fst p)) (snd (fst p)) (snd p))
      (merge_left (fun p => fst p) (merge_left (fun r => r) m c) l).

(** Column [pred_c_base]: the baseline closer to the truth when both
    errors are known, else the climatology baseline if present, else
    lag-12.  (A model table without a [truth_c] column takes the second
    case on every row, as a column of NaN does here.) *)
Definition pred_c_base (j : Joined) : cell :=
  let truth := fr_truth_c (j_row j) in
  let ae_clim := cell_abs (cell_sub (j_pred_c_clim j) truth) in
  let ae_lag12 := cell_abs (cell_sub (j_pred_c_lag12 j) truth) in
  match ae_clim, ae_lag12 with
  | Some ac, Some al => if Qle_bool ac al then j_pred_c_clim j else j_pred_c_lag12 j
  | _, _ => if notna (j_pred_c_clim j) then j_pred_c_clim j else j_pred_c_lag12 j
  end.

Definition bucket_of (buckets : list Bucket) (j : Joined) : string :=
  bucket_name (fr_horizon (j_row j)) buckets.

(** The points of [numpy.linspace(start, stop, num)] for [num >= 0]:
    [num] evenly spaced points [i * step + start], the last one [stop]
    itself. *)
Definition linspace_points (start stop : Q) (num : Z) : list Q :=
  match Z.to_nat num with
  | O => []
  | S O => [start]
  | S (S n) =>
      let step := ((stop - start) / inject_Z (num - 1))%Q in
      map (fun i => (inject_Z (Z.of_nat i) * step + start)%Q) (seq 0 (S n)) ++ [stop]
  end.

(** [numpy.linspace(start, stop, num)]; [None] is the [ValueError] of a
    negative [num]. *)
Definition linspace (start stop : Q) (num : Z) : option (list Q) :=
  if num <? 0 then None else Some (linspace_points start stop num).

(** [sub]: the rows the weight search of bucket [name] runs over. *)
Definition sub_frame (buckets : list Bucket) (df : list Joined) (name : string) : list Joined :=
  filter (fun j => String.eqb (bucket_of buckets j) name && notna (pred_c_base j)) df.

(** Squared error of the blend of one row at weight [w]. *)
Definition blend_sq_err (w : Q) (j : Joined) : cell :=
  let p := cell_add (cell_mul (Some (1 - w)%Q) (fr_pred_c (j_row j)))
                    (cell_mul (Some w) (pred_c_base j)) in
  let d := cell_sub p (fr_truth_c (j_row j)) in
  cell_mul d d.

(** [sqrt(mean((p - y)**2))] over [sub]: NaN as soon as one entry is. *)
Definition rmse_at `{Numerics} (sub : list Joined) (w : Q) : cell :=
  match all_values (map (blend_sq_err w) sub) with
  | Some se => Some (sqrt (mean se))
  | None => None
  end.

(** The pair [best = (weight, rmse)]; the second component [None] is the
    initial [float("inf")]. *)
Definition search_step `{Numerics} (sub : list Joined) (best : Q * option Q) (w : Q)
  : Q * option Q :=
  match rmse_at sub w with
  | None => best
  | Some r =>
      match snd best with
      | None => (w, Some r)
      | Some b => if Qlt_bool r b then (w, Some r) else best
      end
  end.

Definition search `{Numerics} (sub : list Joined) (grid : list Q) : Q * option Q :=
  fold_left (search_step sub) grid (0%Q, None).

(** The value stored in [best_w[name]]. *)
Definition best_weight `{Numerics} (buckets : list Bucket) (df : list Joined)
    (grid : list Q) (name : string) : Q :=
  match sub_frame buckets df name with
  | [] => 0%Q
  | sub => fst (search sub grid)
  end.

(** [best_w.get(n, 0.0)] after the loop over [buckets_to_opt]. *)
Definition best_w_get `{Numerics} (buckets : list Bucket) (df : list Joined)
    (grid : list Q) (buckets_to_opt : list string) (n : string) : Q :=
  if existsb (String.eqb n) buckets_to_opt then best_weight buckets df grid n else 0%Q.

(** Columns [blend_w] and the blended [pred_c] of one row. *)
Definition blend_w `{Numerics} (buckets : list Bucket) (df : list Joined)
    (grid : list Q) (buckets_to_opt : list string) (j : Joined) : Q :=
  if isna (pred_c_base j) then 0%Q
  else best_w_get buckets df grid buckets_to_opt (bucket_of buckets j).

Definition blend_row `{Numerics} (buckets : list Bucket) (df : list Joined)
    (grid : list Q) (buckets_to_opt : list string) (j : Joined) : ForecastRow :=
  let w := blend_w buckets df grid buckets_to_opt j in
  let r := j_row j in
  let base0 := match pred_c_base j with Some b => b | None => 0%Q end in
  mkForecastRow (fr_country r) (fr_year r) (fr_month r) (fr_cutoff_ym r) (fr_horizon r)
    (fr_pred_anom r)
    (cell_add (cell_mul (Some (1 - w)%Q) (fr_pred_c r)) (Some (w * base0)%Q))
    (fr_truth_c r) (fr_model r).

(** [main]: the blended forecasts in the model schema; [None] when the
    run aborts at [np.linspace] and writes nothing. *)
Definition main `{Numerics} (buckets : list Bucket) (m c l : list ForecastRow)
    (buckets_to_opt : list string) (w_min w_max : Q) (grid_steps : Z)
  : option (list ForecastRow) :=
  let df := join m c l in
  match linspace w_min w_max grid_steps with
  | None => None
  | Some grid => Some (map (blend_row buckets df grid buckets_to_opt) df)
  end.

End Blend.

(** *** Metrics evaluator (phase4_metrics.py) *)

Module Metrics.

(** [Series.mean()] of pandas: the mean of the present values, NaN when
    there is none. *)
Definition nanmean (s : list cell) : cell :=
  match dropna s with
  | [] => None
  | v => Some (mean v)
  end.

Definition ae (r : ForecastRow) : cell := cell_abs (cell_sub (fr_pred_c r) (fr_truth_c r)).

Definition se (r : ForecastRow) : cell :=
  let d := cell_sub (fr_pred_c r) (fr_truth_c r) in cell_mul d d.

Definition bucket_of (buckets : list Bucket) (r : ForecastRow) : string :=
  bucket_name (fr_horizon r) buckets.

(** A row of [by_country]. *)
Record CountryStat := mkCountryStat {
  cs_country : string;
  cs_bucket : string;
  cs_n : nat;
  cs_MAE : cell;
  cs_RMSE : cell
}.


(** The aggregation of one (country, bucket) group. *)
Definition agg_country `{Numerics} (country bucket : string) (g : list ForecastRow) : CountryStat :=
  mkCountryStat country bucket
    (length (dropna (map ae g)))
    (nanmean (map ae g))
    (match nanmean (map se g) with
     | Some v => Some (sqrt v)
     | None => None
     end).

(** [m.groupby([country, bucket]).agg(...)]: one row per observed pair,
    in increasing (country, bucket) order. *)
Definition by_country `{Numerics} (buckets : list Bucket) (m : list ForecastRow)
  : list CountryStat :=
  flat_map (fun cg =>
              map (fun bg => agg_country (fst cg) (fst bg) (snd bg))
                  (groupby_string (bucket_of buckets) (snd cg)))
           (groupby_string fr_country m).


End Metrics.

(** *** A concrete instance of the numerics, for the worked examples *)

(** Square root rounded down to six decimals. *)
Definition sqrt6 (q : Q) : Q :=
  let r := Qred q in
  (Z.sqrt (Qnum r * Zpos (Qden r) * 1000000000000) # (Qden r * 1000000))%Q.

(** [sin(2*pi*m/12)] and [cos(2*pi*m/12)] to six decimals, by [m mod 12]. *)
Definition sin12 (m : Z) : Q :=
  nth (Z.to_nat (m mod 12))
      [0; 1#2; 866025#1000000; 1; 866025#1000000; 1#2;
       0; -(1#2); -(866025#1000000); -(1); -(866025#1000000); -(1#2)]%Q 0%Q.

Definition cos12 (m : Z) : Q :=
  nth (Z.to_nat (m mod 12))
      [1; 866025#1000000; 1#2; 0; -(1#2); -(866025#1000000);
       -(1); -(866025#1000000); -(1#2); 0; 1#2; 866025#1000000]%Q 0%Q.

(** The ridge fit in the limit of infinite regularisation: all
    coefficients vanish and the prediction is the mean training target. *)
Definition example_numerics : Numerics := {|
  sqrt := sqrt6;
  month_sin := sin12;
  month_cos := cos12;
  Model := Q;
  ridge_fit := fun _ y _ => mean y;
  direct_fit := fun _ y _ => mean y;
  predict := fun m _ => m
|}.

(** *** Notions used to state the properties *)

(** A feature row is eligible for the recursive fit at cutoff [k_cut]. *)
Definition eligible (k_cut : Z) (r : FeatRow) : bool :=
  (f_key r <=? k_cut) && notna (f_target_anom_t_plus_1 r).

(** A feature row is eligible for the direct fit of horizon [h] at cutoff
    [k_cut]. *)
Definition eligible_direct (A : list AnomRow) (country : string) (k_cut h : Z)
    (r : FeatRow) : bool :=
  (f_key r <=? k_cut - h) && notna (DirectMid.targ_at A country h (f_key r)).

(** *** Data of the worked examples *)

(** [n] months of "Testland" from 2019-01 on, climatology 10; the anomaly
    of month number [i] is [i/10], except that of 2020-03 ([i = 14]),
    which is [a_march]. *)
Definition testland_months (n : nat) (a_march : Q) : list AnomRow :=
  map (fun i =>
         let k := 2019 * 12 + Z.of_nat i in
         let a := if (i =? 14)%nat then a_march else (inject_Z (Z.of_nat i) / 10)%Q in
         mkAnomRow "Testland" (k / 12) (k mod 12 + 1)
           (Some (10 + a)%Q) (Some 10%Q) (Some a))
      (seq 0 n).

(** Sixteen months, 2019-01 to 2020-04. *)
Definition testland_series (a_march : Q) : list AnomRow := testland_months 16 a_march.

(** Floor of two training rows, damping 0.9, no clipping, no climatology
    blend. *)
Definition example_config : Ridge.Config :=
  Ridge.mkConfig [1#10; 1; 10]%Q 2 (9#10) 0 0 0 0.

(** What the recursive task at [cut] hands to the fit when the feature
    table is built from [series]: the TimeKeys of the training rows and
    their targets. *)
Definition recursive_fit_inputs (series : list AnomRow) (k_cut : Z)
  : option (list Z * list Q) :=
  let feat := @build_features example_numerics false series in
  match Ridge.training_set example_config (ft_columns feat)
          (Ridge.select_features (ft_columns feat)) k_cut
          (sort_by by_key (ft_rows feat)) with
  | Some ts => Some (map f_key (Ridge.ts_rows ts), Ridge.ts_y ts)
  | None => None
  end.

(** Floor of two training rows for the direct mode, band 1..2. *)
Definition example_cfg_direct : DirectMid.Cfg :=
  DirectMid.mkCfg 1 2 [30; 100; 300]%Q 2.

(** The buffer after the horizon loop has passed all of [hs] without a
    [break] ([None] if it breaks on the way). *)
Fixpoint loop_state `{Numerics} (cfg : Ridge.Config) (L : list AnomRow) (model : Model)
    (use_cols : list FeatCol) (country : string) (cut : Cutoff)
    (hs : list Z) (hist : list cell) : option (list cell) :=
  match hs with
  | [] => Some hist
  | h :: hs' =>
      match Ridge.horizon_step cfg L model use_cols country cut h hist with
      | None => None
      | Some (_, hist') => loop_state cfg L model use_cols country cut hs' hist'
      end
  end.

(** The damping factor as applied: [max(0.0, min(1.0, damping))]. *)
Definition clamp01 (d : Q) : Q := py_max 0 (py_min 1 d).

(** The Testland scenario of the recursive step: anomalies 0.2, -0.1, 0.3
    in the three months up to the cutoff 2019-12, and the two following
    months present in the store. *)
Definition scenario_store : list AnomRow :=
  [mkAnomRow "Testland" 2019 10 (Some (51#5)) (Some 10) (Some (1#5));
   mkAnomRow "Testland" 2019 11 (Some (99#10)) (Some 10) (Some (-(1#10)));
   mkAnomRow "Testland" 2019 12 (Some (103#10)) (Some 10) (Some (3#10));
   mkAnomRow "Testland" 2020 1 (Some (21#2)) (Some 10) (Some (1#2));
   mkAnomRow "Testland" 2020 2 (Some (52#5)) (Some 10) (Some (2#5))]%Q.

Definition scenario_cutoff : Cutoff := mkCutoff (ym_to_key 2019 12) "2019-12".

(** The default options of phase4_train_ridge.py: floor of 120 rows, no
    damping, no clipping, no climatology blend. *)
Definition default_config : Ridge.Config :=
  Ridge.mkConfig [1#10; 1; 10]%Q 120 1 0 0 0 0.

(** A forecast row lies outside the band [[h_start, h_end]] of the direct
    mode. *)
Definition outside_band (cfg : DirectMid.Cfg) (r : ForecastRow) : bool :=
  (fr_horizon r <? DirectMid.h_start cfg) || (fr_horizon r >? DirectMid.h_end cfg).

Definition inside_band (cfg : DirectMid.Cfg) (r : ForecastRow) : bool :=
  negb (outside_band cfg r).

(** The weight search as the specification words it: over the rows of the
    bucket that have both a known truth and a best-baseline value. *)
Definition usable_rows (buckets : list Bucket) (df : list Blend.Joined) (name : string)
  : list Blend.Joined :=
  filter (fun j => String.eqb (Blend.bucket_of buckets j) name
                   && notna (fr_truth_c (Blend.j_row j))
                   && notna (Blend.pred_c_base j)) df.

Definition best_weight_over_usable `{Numerics} (buckets : list Bucket)
    (df : list Blend.Joined) (grid : list Q) (name : string) : Q :=
  match usable_rows buckets df name with
  | [] => 0%Q
  | u => fst (Blend.search u grid)
  end.

(** Two buckets, and a joined frame with two rows of bucket "h07_12": the
    model predicts 11 in both; the first row has truth 10 and both
    baselines, the second has no truth and the climatology baseline
    only. *)
Definition example_buckets : list Bucket :=
  [mkBucket "h01_06" 1 6; mkBucket "h07_12" 7 12].

Definition example_joined : list Blend.Joined :=
  [Blend.mkJoined
     (mkForecastRow "Testland" 2020 7 "2019-12" 7 (Some 1) (Some 11) (Some 10) "ridge")
     (Some 10) (Some 12);
   Blend.mkJoined
     (mkForecastRow "Testland" 2020 8 "2019-12" 8 (Some 1) (Some 11) None "ridge")
     (Some 10) None]%Q.









(** The example configuration with anomalies clipped to +-0.25. *)
Definition clipping_config : Ridge.Config :=
  Ridge.mkConfig [1#10; 1; 10]%Q 2 (9#10) (1#4) 0 0 0.


(** The [w] entries of a column before position [i], and the rolling
    statistic over them: defined when there are [w] of them and none is
    missing. *)
Definition prev (w i : nat) (a : list cell) : list cell :=
  map (fun j => nth j a None) (seq (i - w) w).

Definition rolled (w i : nat) (agg : list Q -> Q) (a : list cell) : cell :=
  if (w <=? i)%nat
  then match all_values (prev w i a) with
       | Some v => Some (agg v)
       | None => None
       end
  else None.

(** The entry of a column [n] positions before [i]. *)
Definition lagged (n i : nat) (a : list cell) : cell :=
  if (i <? n)%nat then None else nth (i - n) a None.

(** *** The model fit ([fit_ridge_timeaware], both training scripts) *)

(** What [fit_ridge_timeaware] calls from scikit-learn:
    [StandardScaler().fit(X)] and its [transform], [Ridge(alpha=a).fit(X, y)]
    (the strength as the scripts hold it, an optional float; a fit is only
    reached with a float) and its [predict],
    and the [(train, validation)] index pairs of
    [TimeSeriesSplit(n_splits).split(X)] for [X] of a given number of
    rows. *)
Class Sklearn := {
  Scaler : Type;
  Estimator : Type;
  StandardScaler_fit : list (list Q) -> Scaler;
  transform : Scaler -> list (list Q) -> list (list Q);
  Ridge_fit : option Q -> list (list Q) -> list Q -> Estimator;
  Ridge_predict : Estimator -> list (list Q) -> list Q;
  TimeSeriesSplit : nat -> nat -> list (list nat * list nat)
}.

(** The returned estimator with the two attributes the scripts attach to
    it, [_scaler] and [_alpha]. *)
Record Fitted `{Sklearn} := mkFitted {
  m_estimator : Estimator;
  m_scaler : Scaler;
  m_alpha : option Q
}.

Arguments mkFitted {_} _ _ _.

(** [X[idx]] for an index array [idx] (the splitter's indices are in
    range). *)
Definition rows_at {A : Type} (d : A) (X : list A) (idx : list nat) : list A :=
  map (fun i => nth i X d) idx.

(** [numpy.mean]: NaN on an empty array. *)
Definition np_mean (l : list Q) : cell :=
  match l with
  | [] => None
  | _ => Some (mean l)
  end.

(** The validation RMSE of strength [a] on one split. *)
Definition fold_rmse `{Numerics} `{Sklearn} (a : Q) (X : list (list Q)) (y : list Q)
    (tv : list nat * list nat) : cell :=
  let tr := fst tv in
  let va := snd tv in
  let s := StandardScaler_fit (rows_at [] X tr) in
  let m := Ridge_fit (Some a) (transform s (rows_at [] X tr)) (rows_at 0%Q y tr) in
  let pred := Ridge_predict m (transform s (rows_at [] X va)) in
  match np_mean (map (fun py => ((fst py - snd py) * (fst py - snd py))%Q)
                     (combine pred (rows_at 0%Q y va))) with
  | Some v => Some (sqrt v)
  | None => None
  end.

(** [avg]: the mean validation RMSE of strength [a] over the splits, three
    of them from 100 rows on and two below. *)
Definition cv_rmse `{Numerics} `{Sklearn} (X : list (list Q)) (y : list Q) (a : Q) : cell :=
  let n_splits := if (100 <=? length X)%nat then 3%nat else 2%nat in
  match all_values (map (fold_rmse a X y) (TimeSeriesSplit n_splits (length X))) with
  | Some rmses => np_mean rmses
  | None => None
  end.

(** One turn of [for a in alphas] on the pair (best strength, best RMSE);
    the RMSE [None] is the initial [float("inf")].  [inj] turns a strength
    into the value kept as best strength. *)
Definition select_step {A : Type} (inj : Q -> A) (score : Q -> cell)
    (best : A * option Q) (a : Q) : A * option Q :=
  match score a with
  | None => best
  | Some avg =>
      match snd best with
      | None => (inj a, Some avg)
      | Some b => if Qlt_bool avg b then (inj a, Some avg) else best
      end
  end.

Module RidgeFit.

(** [fit_ridge_timeaware] of phase4_train_ridge.py; [best_alpha] starts as
    Python's [None], and when the loop leaves it so the final
    [Ridge(alpha=None).fit] raises: the outer [None]. *)
Definition fit_ridge_timeaware `{Numerics} `{Sklearn} (X : list (list Q)) (y : list Q)
    (alphas : list Q) : option Fitted :=
  if (length X <? 60)%nat then
    let scaler := StandardScaler_fit X in
    Some (mkFitted (Ridge_fit (Some 1%Q) (transform scaler X) y) scaler (Some 1%Q))
  else
    match fst (fold_left (select_step Some (cv_rmse X y)) alphas (None, None)) with
    | None => None
    | Some best_alpha =>
        let scaler := StandardScaler_fit X in
        Some (mkFitted (Ridge_fit (Some best_alpha) (transform scaler X) y) scaler
                (Some best_alpha))
    end.

End RidgeFit.

Module DirectFit.

(** [fit_ridge_timeaware] of phase4_train_direct_mid.py; [None] is the
    [IndexError] of [alphas[0]] on an empty list. *)
Definition fit_ridge_timeaware `{Numerics} `{Sklearn} (X : list (list Q)) (y : list Q)
    (alphas : list Q) : option Fitted :=
  match alphas with
  | [] => None
  | a0 :: _ =>
      if (length X <? 60)%nat then
        let s := StandardScaler_fit X in
        Some (mkFitted (Ridge_fit (Some a0) (transform s X) y) s (Some a0))
      else
        let best := fold_left (select_step (fun a => a) (cv_rmse X y)) alphas (a0, None) in
        let s := StandardScaler_fit X in
        Some (mkFitted (Ridge_fit (Some (fst best)) (transform s X) y) s (Some (fst best)))
  end.

End DirectFit.

(** ** Part II. Properties *)

Section BlendWeight.

Local Open Scope Q_scope.

Lemma blend_weight_disabled h start end_ wmax :
  (end_ <= start)%Z \/ wmax <= 0 -> blend_weight h start end_ wmax = 0.
Proof.
  intros H. unfold blend_weight.
  destruct H as [H | H].
  - apply Z.leb_le in H. now rewrite H.
  - apply Qle_bool_iff in H. rewrite H. now rewrite orb_true_r.
Qed.

Lemma blend_weight_enabled h start end_ wmax :
  (start < end_)%Z -> 0 < wmax ->
  blend_weight h start end_ wmax =
    if (h <=? start)%Z then 0
    else if (h >=? end_)%Z then wmax
    else wmax * inject_Z (h - start) / inject_Z (end_ - start).
Proof.
  intros Hse Hw. unfold blend_weight.
  replace (end_ <=? start)%Z with false by (symmetry; apply Z.leb_gt; lia).
  replace (Qle_bool wmax 0) with false; [reflexivity|].
  symmetry. apply not_true_is_false. rewrite Qle_bool_iff. lra.
Qed.

Lemma inject_Z_pos (d : Z) : (0 < d)%Z -> 0 < inject_Z d.
Proof. intros H. change 0 with (inject_Z 0). now rewrite <- Zlt_Qlt. Qed.

Lemma inject_Z_nonneg (a : Z) : (0 <= a)%Z -> 0 <= inject_Z a.
Proof. intros H. change 0 with (inject_Z 0). now rewrite <- Zle_Qle. Qed.

Lemma ramp_bounds (wmax : Q) (a d : Z) :
  0 < wmax -> (0 <= a)%Z -> (a <= d)%Z -> (0 < d)%Z ->
  0 <= wmax * inject_Z a / inject_Z d /\ wmax * inject_Z a / inject_Z d <= wmax.
Proof.
  intros Hw Ha Had Hd.
  assert (Hd' : 0 < inject_Z d) by (apply (inject_Z_pos d), Hd).
  assert (Ha' : 0 <= inject_Z a) by (apply (inject_Z_nonneg a), Ha).
  assert (Had' : inject_Z a <= inject_Z d) by (rewrite <- Zle_Qle; exact Had).
  split.
  - apply Qle_shift_div_l; [exact Hd'|]. nra.
  - apply Qle_shift_div_r; [exact Hd'|]. nra.
Qed.

Lemma ramp_mono (wmax : Q) (a b d : Z) :
  0 < wmax -> (a <= b)%Z -> (0 < d)%Z ->
  wmax * inject_Z a / inject_Z d <= wmax * inject_Z b / inject_Z d.
Proof.
  intros Hw Hab Hd.
  assert (Hd' : 0 < inject_Z d) by (apply (inject_Z_pos d), Hd).
  assert (Hab' : inject_Z a <= inject_Z b) by (rewrite <- Zle_Qle; exact Hab).
  unfold Qdiv. apply Qmult_le_compat_r.
  - nra.
  - apply Qlt_le_weak, Qinv_lt_0_compat, Hd'.
Qed.

Lemma blend_weight_range h start end_ wmax :
  0 <= wmax ->
  0 <= blend_weight h start end_ wmax /\ blend_weight h start end_ wmax <= wmax.
Proof.
  intros Hw.
  destruct (Z_lt_le_dec start end_) as [Hse | Hse];
    [destruct (Qlt_le_dec 0 wmax) as [Hpos | Hnp]|].
  - rewrite blend_weight_enabled by assumption.
    destruct (h <=? start)%Z eqn:E1; [lra|].
    destruct (h >=? end_)%Z eqn:E2; [lra|].
    apply Z.leb_gt in E1. rewrite Z.geb_leb in E2; apply Z.leb_gt in E2.
    apply ramp_bounds; try assumption; lia.
  - rewrite blend_weight_disabled by (right; exact Hnp). lra.
  - rewrite blend_weight_disabled by (left; exact Hse). lra.
Qed.

Lemma blend_weight_mono h h' start end_ wmax :
  (h <= h')%Z ->
  blend_weight h start end_ wmax <= blend_weight h' start end_ wmax.
Proof.
  intros Hh.
  destruct (Z_lt_le_dec start end_) as [Hse | Hse];
    [destruct (Qlt_le_dec 0 wmax) as [Hpos | Hnp]|].
  - rewrite !blend_weight_enabled by assumption.
    destruct (h <=? start)%Z eqn:E1.
    + destruct (h' <=? start)%Z eqn:E1'; [lra|].
      destruct (h' >=? end_)%Z eqn:E2'; [lra|].
      apply Z.leb_gt in E1'. rewrite Z.geb_leb in E2'; apply Z.leb_gt in E2'.
      apply ramp_bounds; try assumption; lia.
    + apply Z.leb_gt in E1.
      replace (h' <=? start)%Z with false by (symmetry; apply Z.leb_gt; lia).
      destruct (h >=? end_)%Z eqn:E2.
      * apply Z.geb_le in E2.
        replace (h' >=? end_)%Z with true by (symmetry; apply Z.geb_le; lia).
        lra.
      * rewrite Z.geb_leb in E2; apply Z.leb_gt in E2.
        destruct (h' >=? end_)%Z eqn:E2'.
        -- apply ramp_bounds; try assumption; lia.
        -- apply ramp_mono; try assumption; lia.
  - rewrite !blend_weight_disabled by (right; exact Hnp). lra.
  - rewrite !blend_weight_disabled by (left; exact Hse). lra.
Qed.

End BlendWeight.

(** *** Frames: sorting, filtering, missing values *)

Section Frames.

Context {A : Type}.

Lemma insert_sorted_perm (leb : A -> A -> bool) (x : A) (l : list A) :
  Permutation (x :: l) (insert_sorted leb x l).
Proof.
  induction l as [| y t IH]; simpl.
  - apply Permutation_refl.
  - destruct (leb x y).
    + apply Permutation_refl.
    + eapply perm_trans; [apply perm_swap|]. now apply perm_skip.
Qed.

Lemma sort_by_perm (leb : A -> A -> bool) (l : list A) :
  Permutation l (sort_by leb l).
Proof.
  induction l as [| x t IH]; simpl.
  - apply perm_nil.
  - eapply perm_trans; [apply perm_skip, IH|]. apply insert_sorted_perm.
Qed.

Lemma sort_by_In (leb : A -> A -> bool) (l : list A) (x : A) :
  In x (sort_by leb l) <-> In x l.
Proof.
  split; apply Permutation_in; [apply Permutation_sym|]; apply sort_by_perm.
Qed.

Lemma filter_perm (p : A -> bool) (l l' : list A) :
  Permutation l l' -> Permutation (filter p l) (filter p l').
Proof.
  induction 1; simpl.
  - apply perm_nil.
  - destruct (p x); [apply perm_skip|]; assumption.
  - destruct (p x), (p y); try apply Permutation_refl. apply perm_swap.
  - eapply perm_trans; eassumption.
Qed.

Lemma filter_filter (p q : A -> bool) (l : list A) :
  filter p (filter q l) = filter (fun x => q x && p x) l.
Proof.
  induction l as [| x t IH]; simpl; [reflexivity|].
  destruct (q x); simpl; [destruct (p x)|]; now rewrite IH.
Qed.

Lemma filter_length_le_filter (p q : A -> bool) (l : list A) :
  (forall x, p x = true -> q x = true) ->
  (length (filter p l) <= length (filter q l))%nat.
Proof.
  intros Hpq. induction l as [| x t IH]; simpl; [lia|].
  destruct (p x) eqn:Ep.
  - rewrite (Hpq x Ep). simpl. lia.
  - destruct (q x); simpl; lia.
Qed.

End Frames.

Lemma all_values_Some (l : list cell) (v : list Q) :
  all_values l = Some v -> l = map Some v.
Proof.
  revert v. induction l as [| c t IH]; simpl; intros v H.
  - now inversion H.
  - destruct c as [q|]; [|discriminate].
    destruct (all_values t) as [v'|]; [|discriminate].
    inversion H; subst. simpl. now rewrite (IH v' eq_refl).
Qed.

Lemma all_values_None (l : list cell) :
  all_values l = None <-> In None l.
Proof.
  induction l as [| c t IH]; simpl.
  - split; [discriminate | tauto].
  - destruct c as [q|].
    + destruct (all_values t) as [v'|].
      * split; [discriminate|]. intros [H | H]; [discriminate|].
        now apply IH in H.
      * split; [|reflexivity]. intros _. right. now apply IH.
    + split; [now left | reflexivity].
Qed.

Lemma range_length (lo hi : Z) : length (range lo hi) = Z.to_nat (hi - lo).
Proof. unfold range. now rewrite length_map, length_seq. Qed.

Lemma range_In (lo hi x : Z) : In x (range lo hi) <-> lo <= x < hi.
Proof.
  unfold range. rewrite in_map_iff. split.
  - intros (i & <- & Hi). apply in_seq in Hi. lia.
  - intros H. exists (Z.to_nat (x - lo)). split; [lia|]. apply in_seq. lia.
Qed.

Lemma loc_Some (L : list AnomRow) (country : string) (k : Z) (r : AnomRow) :
  loc L country k = Some r -> In r L /\ a_country r = country /\ a_key r = k.
Proof.
  unfold loc. intros H. apply find_some in H. destruct H as [Hin Hb].
  apply andb_prop in Hb. destruct Hb as [Hc Hk].
  apply String.eqb_eq in Hc. apply Z.eqb_eq in Hk. auto.
Qed.

(** *** Recursive forecaster: the training set *)

Section RecursiveTraining.

Import Ridge.

Lemma all_rows_values_Some (X : list (list cell)) (V : list (list Q)) :
  all_rows_values X = Some V -> X = map (map Some) V.
Proof.
  revert V. induction X as [| r t IH]; simpl; intros V H.
  - now inversion H.
  - destruct (all_values r) as [v|] eqn:Er; [|discriminate].
    destruct (all_rows_values t) as [vs|]; [|discriminate].
    inversion H; subst. simpl.
    now rewrite (all_values_Some _ _ Er), (IH vs eq_refl).
Qed.

Lemma training_set_inv cfg columns base_feature_list k_cut dfc ts :
  training_set cfg columns base_feature_list k_cut dfc = Some ts ->
  ts_rows ts = filter (eligible k_cut) dfc
  /\ min_train_rows cfg <= Z.of_nat (length (ts_rows ts))
  /\ map f_target_anom_t_plus_1 (ts_rows ts) = map Some (ts_y ts)
  /\ map (fun r => map (fun c => f_get c r) (ts_use_cols ts)) (ts_rows ts)
     = map (map Some) (ts_X ts)
  /\ incl (ts_use_cols ts) base_feature_list.
Proof.
  unfold training_set. intros H.
  destruct (Z.of_nat (length (filter (fun r => f_key r <=? k_cut) dfc)) <? min_train_rows cfg);
    [discriminate|].
  set (use_cols := filter _ base_feature_list) in H.
  assert (Hincl : incl use_cols base_feature_list)
    by (intros c Hc; now apply filter_In in Hc).
  destruct use_cols as [| c0 cs] eqn:Eu; [discriminate|].
  rewrite filter_filter in H. fold (eligible k_cut) in H.
  change (fun x => (f_key x <=? k_cut) && notna (f_target_anom_t_plus_1 x))
    with (eligible k_cut) in H.
  destruct (Z.of_nat (length (filter (eligible k_cut) dfc)) <? min_train_rows cfg) eqn:Eg;
    [discriminate|].
  destruct (all_rows_values _) as [X|] eqn:EX; [|discriminate].
  destruct (all_values _) as [y|] eqn:Ey; [|discriminate].
  inversion H; subst ts; simpl.
  apply Z.ltb_ge in Eg.
  repeat split; auto.
  - now apply all_values_Some.
  - now apply all_rows_values_Some.
Qed.

Lemma training_set_gate cfg columns base_feature_list k_cut dfc :
  Z.of_nat (length (filter (eligible k_cut) dfc)) < min_train_rows cfg ->
  training_set cfg columns base_feature_list k_cut dfc = None.
Proof.
  intros Hlt.
  destruct (training_set cfg columns base_feature_list k_cut dfc) as [ts|] eqn:E;
    [|reflexivity].
  apply training_set_inv in E. destruct E as (Hrows & Hmin & _).
  rewrite Hrows in Hmin. lia.
Qed.

(** Every row handed to the recursive fit is a row of the country at or
    before the cutoff. *)
Lemma training_rows_upto_cutoff cfg columns base_feature_list k_cut dfc ts :
  training_set cfg columns base_feature_list k_cut dfc = Some ts ->
  Forall (fun r => In r dfc /\ f_key r <= k_cut) (ts_rows ts).
Proof.
  intros H. apply training_set_inv in H. destruct H as (Hrows & _).
  rewrite Hrows. apply Forall_forall. intros r Hr.
  apply filter_In in Hr. destruct Hr as [Hin He].
  apply andb_prop in He. destruct He as [Hk _]. apply Z.leb_le in Hk. auto.
Qed.

End RecursiveTraining.

(** C1 (the code departs from the claim).  Cutoff 2020-02 on the Testland
    series.  Two series that agree on every month up to the cutoff and
    differ only in the anomaly of 2020-03 give the recursive fit different
    targets: the training row at the cutoff itself (TimeKey 24241) carries
    the anomaly of 2020-03 as its target.  The rows are all at or before
    the cutoff ([training_rows_upto_cutoff]), their targets are not. *)
Theorem recursive_fit_reads_month_after_cutoff :
  let c := ym_to_key 2020 2 in
  filter (fun r => a_key r <=? c) (testland_series (7#5))
    = filter (fun r => a_key r <=? c) (testland_series (9#5))
  /\ recursive_fit_inputs (testland_series (7#5)) c
     = Some ([c - 1; c], [13#10; 7#5]%Q)
  /\ recursive_fit_inputs (testland_series (9#5)) c
     = Some ([c - 1; c], [13#10; 9#5]%Q)
  /\ option_map (fun r => (a_key r, a_anomaly_c r))
       (loc (testland_series (7#5)) "Testland" (c + 1))
     = Some (c + 1, Some (7#5)).
Proof.
  cbv zeta. repeat split; vm_compute; reflexivity.
Qed.

(** *** Direct forecaster: the training set *)

Section DirectTraining.

Import DirectMid.

Lemma direct_training_set_inv cfg A columns base_cols country k_cut h dfc ts :
  training_set cfg A columns base_cols country k_cut h dfc = Some ts ->
  ts_rows ts = filter (eligible_direct A country k_cut h) dfc
  /\ min_train_rows cfg <= Z.of_nat (length (ts_rows ts))
  /\ map (fun r => targ_at A country h (f_key r)) (ts_rows ts) = map Some (ts_y ts)
  /\ map (fun r => map (fun c => f_get c r) (ts_use_cols ts)) (ts_rows ts)
     = map (map Some) (ts_X ts).
Proof.
  unfold training_set. intros H.
  destruct (Z.of_nat (length (filter (fun r => f_key r <=? k_cut - h) dfc))
            <? min_train_rows cfg); [discriminate|].
  set (use_cols := filter _ base_cols) in H.
  destruct use_cols as [| c0 cs] eqn:Eu; [discriminate|].
  rewrite filter_filter in H.
  change (fun x => (f_key x <=? k_cut - h) && notna (targ_at A country h (f_key x)))
    with (eligible_direct A country k_cut h) in H.
  destruct (Z.of_nat (length (filter (eligible_direct A country k_cut h) dfc))
            <? min_train_rows cfg) eqn:Eg; [discriminate|].
  destruct (all_rows_values _) as [X|] eqn:EX; [|discriminate].
  destruct (all_values _) as [y|] eqn:Ey; [|discriminate].
  inversion H; subst ts; simpl.
  apply Z.ltb_ge in Eg.
  repeat split; auto.
  - now apply all_values_Some.
  - now apply all_rows_values_Some.
Qed.

Lemma targ_at_Some A country h k y :
  targ_at A country h k = Some y ->
  exists rec, In rec A /\ a_country rec = country /\ a_key rec = k + h
              /\ a_anomaly_c rec = Some y.
Proof.
  unfold targ_at. destruct (loc A country (k + h)) as [rec|] eqn:E; [|discriminate].
  intros Hy. apply loc_Some in E. destruct E as (Hin & Hc & Hk).
  exists rec. auto.
Qed.

(** C4.  When a direct-mode task at cutoff [k_cut] and horizon [h] trains
    a model, its training rows are exactly the rows of the country with
    TimeKey <= k_cut - h whose anomaly at TimeKey + h is present in the
    series store (rows without that future value are dropped, no other
    row is); each target is the stored anomaly of the row's country at
    TimeKey + h, a month at or before the cutoff. *)
Theorem direct_training_rows_respect_cutoff
    cfg A columns base_cols country k_cut h dfc ts :
  training_set cfg A columns base_cols country k_cut h dfc = Some ts ->
  (forall r, In r (ts_rows ts) <->
             In r dfc /\ f_key r <= k_cut - h
             /\ targ_at A country h (f_key r) <> None)
  /\ length (ts_y ts) = length (ts_rows ts)
  /\ (forall r y, In (r, y) (combine (ts_rows ts) (ts_y ts)) ->
        f_key r <= k_cut - h
        /\ exists rec, In rec A /\ a_country rec = country
                       /\ a_key rec = f_key r + h
                       /\ a_anomaly_c rec = Some y
                       /\ a_key rec <= k_cut).
Proof.
  intros H. apply direct_training_set_inv in H.
  destruct H as (Hrows & _ & Hy & _).
  assert (Hmem : forall r, In r (ts_rows ts) <->
                   In r dfc /\ f_key r <= k_cut - h
                   /\ targ_at A country h (f_key r) <> None).
  { intros r. rewrite Hrows, filter_In. unfold eligible_direct.
    rewrite andb_true_iff, Z.leb_le.
    destruct (targ_at A country h (f_key r)); simpl; intuition congruence. }
  assert (Hlen : length (ts_y ts) = length (ts_rows ts)).
  { apply (f_equal (@length _)) in Hy. now rewrite !length_map in Hy. }
  split; [exact Hmem|]. split; [exact Hlen|].
  intros r y Hin.
  assert (Hr : In r (ts_rows ts)) by (eapply in_combine_l; eassumption).
  apply Hmem in Hr. destruct Hr as (_ & Hk & _).
  split; [exact Hk|].
  assert (Ht : targ_at A country h (f_key r) = Some y).
  { clear Hmem Hrows Hk. revert Hy Hin Hlen.
    generalize (ts_rows ts) (ts_y ts).
    induction l as [| r0 t IH]; intros [| y0 ys]; simpl; try tauto; try discriminate.
    intros Heq [Hhd | Htl] Hl.
    - inversion Hhd; subst. now inversion Heq.
    - inversion Heq. apply (IH ys); auto. }
  apply targ_at_Some in Ht. destruct Ht as (rec & Hin' & Hc & Hkey & Ha).
  exists rec. repeat split; auto. lia.
Qed.

End DirectTraining.

Lemma direct_training_rows_respect_cutoff_witness :
  let feat := @build_features example_numerics false (testland_series (7#5)) in
  let c := ym_to_key 2020 3 in
  exists ts,
    DirectMid.training_set example_cfg_direct (testland_series (7#5))
      (ft_columns feat) (DirectMid.select_features (ft_columns feat))
      "Testland" c 1 (sort_by by_key (ft_rows feat)) = Some ts
    /\ map f_key (DirectMid.ts_rows ts) = [c - 2; c - 1]
    /\ DirectMid.ts_y ts = [13#10; 7#5]%Q
    /\ forall r y, In (r, y) (combine (DirectMid.ts_rows ts) (DirectMid.ts_y ts)) ->
         f_key r <= c - 1
         /\ exists rec, In rec (testland_series (7#5)) /\ a_country rec = "Testland"%string
                        /\ a_key rec = f_key r + 1
                        /\ a_anomaly_c rec = Some y
                        /\ a_key rec <= c.
Proof.
  cbv zeta.
  destruct (DirectMid.training_set example_cfg_direct (testland_series (7#5))
              (ft_columns (@build_features example_numerics false (testland_series (7#5))))
              (DirectMid.select_features
                 (ft_columns (@build_features example_numerics false (testland_series (7#5)))))
              "Testland" (ym_to_key 2020 3) 1
              (sort_by by_key
                 (ft_rows (@build_features example_numerics false (testland_series (7#5))))))
    as [ts|] eqn:E; [| vm_compute in E; discriminate E].
  exists ts. split; [reflexivity|].
  destruct (direct_training_rows_respect_cutoff _ _ _ _ _ _ _ _ _ E) as (_ & _ & H3).
  split; [| split; [| exact H3]];
    vm_compute in E; injection E as <-; reflexivity.
Defined.

(** *** Climatology ramp weight *)

(** C10, as amended.  [blend_weight h start end_ wmax] is 0 whenever
    [end_ <= start] or [wmax <= 0] (so the all-zero default configuration
    disables the blend); it is 0 for [h <= start]; it is [wmax] for
    [h >= end_] when [start < end_] and [wmax >= 0] (elsewhere the first
    guard makes it 0); it lies in [[0, wmax]] when [wmax >= 0]; and it is
    nondecreasing in [h], for all parameters. *)
Theorem blend_weight_ramp (h h' start end_ : Z) (wmax : Q) :
  ((end_ <= start)%Z \/ (wmax <= 0)%Q -> blend_weight h start end_ wmax = 0%Q)
  /\ ((h <= start)%Z -> blend_weight h start end_ wmax = 0%Q)
  /\ ((start < end_)%Z -> (end_ <= h)%Z ->
        ((0 < wmax)%Q -> blend_weight h start end_ wmax = wmax)
        /\ ((0 <= wmax)%Q -> (blend_weight h start end_ wmax == wmax)%Q))
  /\ ((0 <= wmax)%Q ->
        (0 <= blend_weight h start end_ wmax)%Q
        /\ (blend_weight h start end_ wmax <= wmax)%Q)
  /\ ((h <= h')%Z ->
        (blend_weight h start end_ wmax <= blend_weight h' start end_ wmax)%Q).
Proof.
  split; [apply blend_weight_disabled|].
  split.
  { intros Hh. unfold blend_weight.
    destruct ((end_ <=? start) || Qle_bool wmax 0); [reflexivity|].
    apply Z.leb_le in Hh. now rewrite Hh. }
  split.
  { intros Hse Hh.
    assert (Hpos : (0 < wmax)%Q -> blend_weight h start end_ wmax = wmax).
    { intros Hw. rewrite blend_weight_enabled by assumption.
      replace (h <=? start) with false by (symmetry; apply Z.leb_gt; lia).
      replace (h >=? end_) with true by (symmetry; apply Z.geb_le; lia).
      reflexivity. }
    split; [exact Hpos|].
    intros Hw. destruct (Qlt_le_dec 0 wmax) as [Hlt | Hle].
    - rewrite (Hpos Hlt). reflexivity.
    - rewrite blend_weight_disabled by (right; exact Hle). lra. }
  split; [apply blend_weight_range | apply blend_weight_mono].
Qed.

Lemma blend_weight_ramp_witness :
  blend_weight 5 0 0 0 = 0%Q
  /\ blend_weight 6 6 12 (4#5) = 0%Q
  /\ blend_weight 12 6 12 (4#5) = (4#5)%Q
  /\ (0 <= blend_weight 9 6 12 (4#5) /\ blend_weight 9 6 12 (4#5) <= 4#5)%Q
  /\ (blend_weight 9 6 12 (4#5) <= blend_weight 10 6 12 (4#5))%Q.
Proof.
  split; [apply (proj1 (blend_weight_ramp 5 5 0 0 0)); left; lia|].
  split; [apply (proj1 (proj2 (blend_weight_ramp 6 6 6 12 (4#5)))); lia|].
  split; [apply (proj1 (proj2 (proj2 (blend_weight_ramp 12 12 6 12 (4#5))))); [lia | lia | reflexivity]|].
  split; [apply (proj1 (proj2 (proj2 (proj2 (blend_weight_ramp 9 9 6 12 (4#5)))))); discriminate|].
  apply (proj2 (proj2 (proj2 (proj2 (blend_weight_ramp 9 10 6 12 (4#5)))))); lia.
Defined.

(** C10 as stated fails: with [end_ <= start] the first guard returns 0
    also for [h >= end_], where the claim promises [wmax]. *)
Lemma blend_weight_zero_beyond_end :
  (6 <= 9)%Z
  /\ blend_weight 9 12 6 (1#2) = 0%Q
  /\ ~ (blend_weight 9 12 6 (1#2) == 1#2)%Q.
Proof.
  split; [lia|]. split; [reflexivity|]. vm_compute. discriminate.
Qed.

(** *** Recursive forecaster: the horizon loop *)

Lemma range_split (lo m hi : Z) :
  lo <= m < hi -> range lo hi = range lo m ++ m :: range (m + 1) hi.
Proof.
  intros Hm. unfold range.
  replace (Z.to_nat (hi - lo)) with (Z.to_nat (m - lo) + S (Z.to_nat (hi - (m + 1))))%nat by lia.
  rewrite seq_app, map_app. f_equal. simpl. f_equal; [lia|].
  generalize (Z.to_nat (hi - (m + 1))) as n. intros n.
  replace (S (Z.to_nat (m - lo))) with (Z.to_nat (m + 1 - lo) + 0)%nat by lia.
  generalize 0%nat as j. induction n as [| n IH]; intros j; simpl; [reflexivity|].
  f_equal; [lia|].
  replace (S (Z.to_nat (m + 1 - lo) + j)) with (Z.to_nat (m + 1 - lo) + S j)%nat by lia.
  apply IH.
Qed.

Lemma firstn_seq_min (n s len : nat) : firstn n (seq s len) = seq s (Nat.min n len).
Proof.
  revert s len. induction n as [| n IH]; intros s [| len]; simpl; try reflexivity.
  now rewrite IH.
Qed.

Lemma firstn_range (lo hi : Z) (n : nat) :
  (n <= Z.to_nat (hi - lo))%nat ->
  firstn n (range lo hi) = range lo (lo + Z.of_nat n).
Proof.
  intros Hn. unfold range. rewrite firstn_map, firstn_seq_min.
  replace (Nat.min n (Z.to_nat (hi - lo))) with n by lia.
  f_equal. f_equal. lia.
Qed.

Lemma last_n_all {A : Type} (n : nat) (l : list A) :
  (length l <= n)%nat -> last_n n l = l.
Proof.
  intros H. unfold last_n. now replace (length l - n)%nat with 0%nat by lia.
Qed.

Lemma last_n_length {A : Type} (n : nat) (l : list A) :
  length (last_n n l) = Nat.min n (length l).
Proof. unfold last_n. rewrite length_skipn. lia. Qed.

Lemma last_n_snoc {A : Type} (n : nat) (l : list A) (x : A) :
  last_n (S n) (l ++ [x]) = last_n n l ++ [x].
Proof.
  unfold last_n. rewrite length_app. simpl.
  replace (length l + 1 - S n)%nat with (length l - n)%nat by lia.
  rewrite skipn_app.
  replace (length l - n - length l)%nat with 0%nat by lia.
  reflexivity.
Qed.

Lemma tail_at_1_snoc (l : list cell) (x : cell) : tail_at 1 (l ++ [x]) = x.
Proof.
  unfold tail_at. rewrite length_app. change (length [x]) with 1%nat.
  replace (1 <=? length l + 1)%nat with true by (symmetry; apply Nat.leb_le; lia).
  replace (length l + 1 - 1)%nat with (length l) by lia.
  rewrite app_nth2 by lia. now rewrite Nat.sub_diag.
Qed.

Lemma clamp01_range (d : Q) : (0 <= clamp01 d /\ clamp01 d <= 1)%Q.
Proof.
  unfold clamp01, py_max, py_min, Qlt_bool.
  destruct (Qle_bool 1 d) eqn:E1; simpl.
  - destruct (Qle_bool 1 0) eqn:E2; simpl; [apply Qle_bool_iff in E2; lra | lra].
  - destruct (Qle_bool d 0) eqn:E2; simpl; [lra|].
    assert (~ (1 <= d)%Q) by (rewrite <- Qle_bool_iff; congruence).
    assert (~ (d <= 0)%Q) by (rewrite <- Qle_bool_iff; congruence).
    lra.
Qed.

Lemma clamp01_id (d : Q) : (0 < d)%Q -> (d < 1)%Q -> clamp01 d = d.
Proof.
  intros H0 H1. unfold clamp01, py_max, py_min, Qlt_bool.
  replace (Qle_bool 1 d) with false
    by (symmetry; apply not_true_is_false; rewrite Qle_bool_iff; lra).
  simpl.
  replace (Qle_bool d 0) with false
    by (symmetry; apply not_true_is_false; rewrite Qle_bool_iff; lra).
  reflexivity.
Qed.

Section RecursiveForecast.

Context `{Numerics}.
Import Ridge.

Variables (cfg : Config) (L : list AnomRow) (model : Model)
          (use_cols : list FeatCol) (country : string) (cut : Cutoff).

Let step := horizon_step cfg L model use_cols country cut.
Let loop := horizon_loop cfg L model use_cols country cut.
Let state := loop_state cfg L model use_cols country cut.

Lemma update_history_eq (p : Q) (hist : list cell) :
  update_history cfg p hist = last_n 120 (hist ++ [Some (clamp01 (damping cfg) * p)%Q]).
Proof.
  unfold update_history. fold (clamp01 (damping cfg)).
  destruct (120 <? length (hist ++ [Some (clamp01 (damping cfg) * p)%Q]))%nat eqn:E;
    [reflexivity|].
  apply Nat.ltb_ge in E. now rewrite last_n_all.
Qed.

Lemma horizon_step_None (h : Z) (hist : list cell) :
  step h hist = None <->
  loc L country (cutoff_key cut + h) = None
  \/ In None (map (state_features (snd (key_to_ym (cutoff_key cut + h))) hist) use_cols).
Proof.
  unfold step, horizon_step. simpl.
  destruct (loc L country (cutoff_key cut + h)) as [rec|].
  - destruct (all_values _) as [x|] eqn:E.
    + split; [discriminate|]. intros [Hl | Hn]; [discriminate|].
      apply all_values_None in Hn. congruence.
    + split; [|reflexivity]. intros _. right. now apply all_values_None.
  - split; [now left | reflexivity].
Qed.

Lemma horizon_step_Some (h : Z) (hist : list cell) (row : ForecastRow) (hist' : list cell) :
  step h hist = Some (row, hist') ->
  exists rec x p,
    loc L country (cutoff_key cut + h) = Some rec
    /\ all_values (map (state_features (snd (key_to_ym (cutoff_key cut + h))) hist) use_cols)
       = Some x
    /\ p = (if Qlt_bool 0 (clip_anom cfg)
            then np_clip (predict model x) (- clip_anom cfg)%Q (clip_anom cfg)
            else predict model x)
    /\ fr_pred_anom row = Some p
    /\ fr_horizon row = h
    /\ fr_country row = country
    /\ fr_truth_c row = a_temp_c rec
    /\ hist' = update_history cfg p hist.
Proof.
  unfold step, horizon_step. simpl.
  destruct (loc L country (cutoff_key cut + h)) as [rec|]; [|discriminate].
  destruct (all_values _) as [x|]; [|discriminate].
  intros E. inversion E; subst; clear E. simpl.
  exists rec, x. eexists. repeat split; reflexivity.
Qed.

Lemma horizon_loop_horizons (hs : list Z) (hist : list cell) :
  map fr_horizon (loop hs hist) = firstn (length (loop hs hist)) hs.
Proof.
  revert hist. induction hs as [| h hs' IH]; intros hist; simpl; [reflexivity|].
  unfold loop in *. simpl.
  destruct (horizon_step cfg L model use_cols country cut h hist) as [[row hist']|] eqn:E;
    [|reflexivity].
  simpl. rewrite IH. f_equal.
  apply horizon_step_Some in E. destruct E as (? & ? & ? & _ & _ & _ & _ & Hh & _).
  exact Hh.
Qed.

Lemma horizon_loop_length (hs : list Z) (hist : list cell) :
  (length (loop hs hist) <= length hs)%nat.
Proof.
  revert hist. induction hs as [| h hs' IH]; intros hist; simpl; [lia|].
  unfold loop in *. simpl.
  destruct (horizon_step cfg L model use_cols country cut h hist) as [[row hist']|];
    simpl; [specialize (IH hist')|]; lia.
Qed.

Lemma horizon_loop_app (hs1 hs2 : list Z) (hist st : list cell) :
  state hs1 hist = Some st ->
  loop (hs1 ++ hs2) hist = loop hs1 hist ++ loop hs2 st
  /\ length (loop hs1 hist) = length hs1.
Proof.
  revert hist. induction hs1 as [| h hs' IH]; intros hist; simpl.
  - intros E. inversion E. auto.
  - unfold state, loop in *. simpl.
    destruct (horizon_step cfg L model use_cols country cut h hist) as [[row hist']|];
      [|discriminate].
    intros E. destruct (IH hist' E) as [IH1 IH2]. simpl. now rewrite IH1, IH2.
Qed.

(** A pass that breaks at [h] ends the loop: nothing is emitted for [h]
    or for any horizon after it. *)
Lemma horizon_loop_break (hs1 hs2 : list Z) (h : Z) (hist st : list cell) :
  state hs1 hist = Some st ->
  step h st = None ->
  loop (hs1 ++ h :: hs2) hist = loop hs1 hist
  /\ map fr_horizon (loop hs1 hist) = hs1.
Proof.
  intros Hst Hstep.
  destruct (horizon_loop_app hs1 (h :: hs2) hist st Hst) as [Happ Hlen].
  split.
  - assert (Hnil : loop (h :: hs2) st = [])
      by (unfold loop; simpl; unfold step in Hstep; now rewrite Hstep).
    rewrite Happ, Hnil. apply app_nil_r.
  - rewrite horizon_loop_horizons, Hlen. apply firstn_all.
Qed.

(** A horizon whose lookup fails is never emitted. *)
Lemma horizon_loop_skips_missing (hs : list Z) (hist : list cell) (h : Z) :
  loc L country (cutoff_key cut + h) = None ->
  ~ In h (map fr_horizon (loop hs hist)).
Proof.
  intros Hloc. revert hist. induction hs as [| h0 hs' IH]; intros hist; simpl; [tauto|].
  unfold loop in *. simpl.
  destruct (horizon_step cfg L model use_cols country cut h0 hist) as [[row hist']|] eqn:E;
    [|simpl; tauto].
  simpl. intros [Hh | Hin]; [|exact (IH hist' Hin)].
  apply horizon_step_Some in E. destruct E as (rec & ? & ? & Hl & _ & _ & _ & Hh0 & _).
  rewrite Hh0 in Hh. subst h0. congruence.
Qed.

(** The rows emitted over [range(1, HMAX+1)] carry the horizons
    1, 2, ..., n, where n is their number, at most [HMAX]. *)
Lemma horizon_loop_range (HMAX : Z) (hist : list cell) :
  let rows := loop (range 1 (HMAX + 1)) hist in
  (length rows <= Z.to_nat HMAX)%nat
  /\ map fr_horizon rows = range 1 (Z.of_nat (length rows) + 1).
Proof.
  cbv zeta.
  pose proof (horizon_loop_length (range 1 (HMAX + 1)) hist) as Hlen.
  rewrite range_length in Hlen.
  replace (Z.to_nat (HMAX + 1 - 1)) with (Z.to_nat HMAX) in Hlen by lia.
  split; [exact Hlen|].
  rewrite horizon_loop_horizons, firstn_range by (rewrite Z.add_simpl_r; exact Hlen).
  f_equal. lia.
Qed.

Lemma horizon_loop_halts (HMAX : Z) (hist : list cell) (h : Z) :
  1 <= h ->
  (loc L country (cutoff_key cut + h) = None
   \/ exists st, state (range 1 h) hist = Some st /\ step h st = None) ->
  forall r, In r (loop (range 1 (HMAX + 1)) hist) -> fr_horizon r < h.
Proof.
  intros Hh Hfail r Hr.
  destruct (horizon_loop_range HMAX hist) as [Hlen Hhor].
  assert (Hin : In (fr_horizon r) (map fr_horizon (loop (range 1 (HMAX + 1)) hist)))
    by (now apply in_map).
  destruct (Z_lt_le_dec (fr_horizon r) h) as [Hlt | Hge]; [exact Hlt|].
  exfalso.
  assert (Hrange : 1 <= fr_horizon r <= HMAX)
    by (rewrite Hhor in Hin; apply range_In in Hin; lia).
  destruct Hfail as [Hloc | (st & Hst & Hstep)].
  - apply (horizon_loop_skips_missing (range 1 (HMAX + 1)) hist h Hloc).
    rewrite Hhor. rewrite Hhor in Hin. apply range_In in Hin. apply range_In. lia.
  - rewrite (range_split 1 h (HMAX + 1)) in Hin by lia.
    destruct (horizon_loop_break (range 1 h) (range (h + 1) (HMAX + 1)) h hist st Hst Hstep)
      as [Heq Hmap].
    rewrite Heq, Hmap in Hin. apply range_In in Hin. lia.
Qed.

End RecursiveForecast.

(** *** Recursive forecaster: tasks *)

Section RecursiveTasks.

Context `{Numerics}.
Import Ridge.

Lemma run_tasks_app cfg L HMAX columns bfl ts1 ts2 :
  run_tasks cfg L HMAX columns bfl (ts1 ++ ts2)
  = run_tasks cfg L HMAX columns bfl ts1 ++ run_tasks cfg L HMAX columns bfl ts2.
Proof. unfold run_tasks. apply flat_map_app. Qed.

Lemma run_tasks_one cfg L HMAX columns bfl before after cut country dfc :
  run_tasks cfg L HMAX columns bfl (before ++ (cut, (country, dfc)) :: after)
  = run_tasks cfg L HMAX columns bfl before
    ++ task cfg L HMAX columns bfl cut country dfc
    ++ run_tasks cfg L HMAX columns bfl after.
Proof.
  rewrite run_tasks_app. reflexivity.
Qed.

Lemma eligible_sorted_length (k_cut : Z) (dfc : list FeatRow) :
  length (filter (eligible k_cut) (sort_by by_key dfc))
  = length (filter (eligible k_cut) dfc).
Proof.
  apply Permutation_length, filter_perm, Permutation_sym, sort_by_perm.
Qed.

(** C2.  The rows of one recursive (country, cutoff) task: there are at
    most [HMAX] of them and they carry the horizons 1, 2, ..., n without
    a gap; if the lookup of the target month [cutoff + h] fails, or the
    feature vector built from the buffer reached at [h] has a missing
    field, no row of horizon [h] or later is emitted; and in a run the
    task contributes exactly these rows between the rows of the tasks
    before and after it, whose rows do not depend on it. *)
Theorem recursive_horizon_loop_halts cfg L HMAX columns bfl cut country dfc :
  let rows := task cfg L HMAX columns bfl cut country dfc in
  (length rows <= Z.to_nat HMAX)%nat
  /\ map fr_horizon rows = range 1 (Z.of_nat (length rows) + 1)
  /\ (forall h, 1 <= h -> loc L country (cutoff_key cut + h) = None ->
        forall r, In r rows -> fr_horizon r < h)
  /\ (forall ts h st,
        training_set cfg columns bfl (cutoff_key cut) (sort_by by_key dfc) = Some ts ->
        1 <= h ->
        loop_state cfg L (ridge_fit (ts_X ts) (ts_y ts) (alphas cfg)) (ts_use_cols ts)
          country cut (range 1 h) (seed_history L country (cutoff_key cut)) = Some st ->
        loc L country (cutoff_key cut + h) = None
        \/ In None (map (state_features (snd (key_to_ym (cutoff_key cut + h))) st)
                        (ts_use_cols ts)) ->
        forall r, In r rows -> fr_horizon r < h)
  /\ (forall before after,
        run_tasks cfg L HMAX columns bfl (before ++ (cut, (country, dfc)) :: after)
        = run_tasks cfg L HMAX columns bfl before
          ++ rows ++ run_tasks cfg L HMAX columns bfl after).
Proof.
  cbv zeta. unfold task.
  destruct (training_set cfg columns bfl (cutoff_key cut) (sort_by by_key dfc))
    as [ts|] eqn:Ets.
  - cbv zeta.
    destruct (horizon_loop_range cfg L (ridge_fit (ts_X ts) (ts_y ts) (alphas cfg))
                (ts_use_cols ts) country cut HMAX
                (seed_history L country (cutoff_key cut))) as [Hlen Hhor].
    split; [exact Hlen|]. split; [exact Hhor|]. split; [|split].
    + intros h Hh Hloc. eapply horizon_loop_halts; [exact Hh | left; exact Hloc].
    + intros ts' h st Hts Hh Hst Hfail. inversion Hts; subst ts'.
      eapply horizon_loop_halts; [exact Hh|].
      right. exists st. split; [exact Hst|]. apply horizon_step_None. exact Hfail.
    + intros before after. rewrite run_tasks_one. unfold task. now rewrite Ets.
  - split; [simpl; lia|]. split; [reflexivity|]. split; [|split].
    + intros h _ _ r [].
    + intros ts h st Hts. discriminate.
    + intros before after. rewrite run_tasks_one. unfold task. now rewrite Ets.
Qed.

(** C8.  A (country, cutoff) task whose eligible training rows (TimeKey
    at or before the cutoff, target present) number fewer than
    [min_train_rows] trains no model and emits no forecast row; the run
    goes on, and its output is that of the tasks before followed by that
    of the tasks after. *)
Theorem min_size_gate_skips_task cfg L HMAX columns bfl cut country dfc :
  Z.of_nat (length (filter (eligible (cutoff_key cut)) dfc)) < min_train_rows cfg ->
  trained_model cfg columns bfl cut dfc = None
  /\ task cfg L HMAX columns bfl cut country dfc = []
  /\ (forall before after,
        run_tasks cfg L HMAX columns bfl (before ++ (cut, (country, dfc)) :: after)
        = run_tasks cfg L HMAX columns bfl before
          ++ run_tasks cfg L HMAX columns bfl after).
Proof.
  intros Hlt.
  assert (Hnone : training_set cfg columns bfl (cutoff_key cut) (sort_by by_key dfc) = None)
    by (apply training_set_gate; now rewrite eligible_sorted_length).
  assert (Htask : task cfg L HMAX columns bfl cut country dfc = [])
    by (unfold task; now rewrite Hnone).
  split; [unfold trained_model; now rewrite Hnone|].
  split; [exact Htask|].
  intros before after. now rewrite run_tasks_one, Htask.
Qed.

(** C3.  A pass of the horizon loop that emits a row with predicted
    anomaly [p] appends [clamp01 damping * p] to the buffer and keeps the
    most recent 120 entries, so the next pass, which runs on that buffer,
    reads [anom_lag1 = clamp01 damping * p]: exactly [0.9 * p] for
    [damping = 0.9].  With clipping disabled [p] is the model's
    prediction on the feature vector of the pass. *)
Theorem damped_prediction_feeds_lag1
    cfg L model use_cols country cut h hs hist row hist' :
  horizon_step cfg L model use_cols country cut h hist = Some (row, hist') ->
  exists p,
    fr_pred_anom row = Some p
    /\ hist' = last_n 120 (hist ++ [Some (clamp01 (damping cfg) * p)%Q])
    /\ (length hist' <= 120)%nat
    /\ horizon_loop cfg L model use_cols country cut (h :: hs) hist
       = row :: horizon_loop cfg L model use_cols country cut hs hist'
    /\ (forall m, state_features m hist' anom_lag1
                  = Some (clamp01 (damping cfg) * p)%Q)
    /\ (damping cfg = (9#10)%Q ->
        forall m, state_features m hist' anom_lag1 = Some ((9#10) * p)%Q)
    /\ (Qlt_bool 0 (clip_anom cfg) = false ->
        exists x,
          all_values (map (state_features (snd (key_to_ym (cutoff_key cut + h))) hist)
                          use_cols) = Some x
          /\ p = predict model x).
Proof.
  intros Hstep.
  destruct (horizon_step_Some _ _ _ _ _ _ _ _ _ _ Hstep)
    as (rec & x & p & _ & Hx & Hp & Hpred & _ & _ & _ & Hhist).
  rewrite update_history_eq in Hhist.
  assert (Hlag : forall m, state_features m hist' anom_lag1
                           = Some (clamp01 (damping cfg) * p)%Q).
  { intros m. simpl. rewrite Hhist.
    change 120%nat with (S 119). rewrite last_n_snoc. apply tail_at_1_snoc. }
  exists p. split; [exact Hpred|]. split; [exact Hhist|].
  split; [rewrite Hhist, last_n_length; lia|].
  split; [simpl; now rewrite Hstep|].
  split; [exact Hlag|]. split.
  - intros Hd m. rewrite Hlag, Hd. reflexivity.
  - intros Hclip. exists x. split; [exact Hx|]. now rewrite Hclip in Hp.
Qed.

End RecursiveTasks.

(** *** Worked examples of the recursive forecaster *)

(** Cutoff 2020-02 on the sixteen-month series, five horizons asked: the
    store ends at 2020-04, so horizons 1 and 2 are emitted and the lookup
    of 2020-05 stops the loop. *)
Lemma recursive_horizon_loop_halts_witness :
  let feat := @build_features example_numerics false (testland_series (7#5)) in
  let rows := @Ridge.task example_numerics example_config (testland_series (7#5)) 5
                (ft_columns feat) (Ridge.select_features (ft_columns feat))
                (mkCutoff (ym_to_key 2020 2) "2020-02") "Testland" (ft_rows feat) in
  map fr_horizon rows = [1; 2]
  /\ forall r, In r rows -> fr_horizon r < 3.
Proof.
  cbv zeta. split; [vm_compute; reflexivity|].
  refine (proj1 (proj2 (proj2 (@recursive_horizon_loop_halts example_numerics
            example_config (testland_series (7#5)) 5 _ _
            (mkCutoff (ym_to_key 2020 2) "2020-02") "Testland" _))) 3 _ _).
  - lia.
  - vm_compute; reflexivity.
Defined.

(** Ten eligible rows against the default floor of 120: cutoff 2020-10 on
    twenty-four months of Testland. *)
Lemma min_size_gate_skips_task_witness :
  let feat := @build_features example_numerics false (testland_months 24 (7#5)) in
  let cut := mkCutoff (ym_to_key 2020 10) "2020-10" in
  length (filter (eligible (cutoff_key cut)) (ft_rows feat)) = 10%nat
  /\ @Ridge.trained_model example_numerics default_config (ft_columns feat)
       (Ridge.select_features (ft_columns feat)) cut (ft_rows feat) = None
  /\ @Ridge.task example_numerics default_config (testland_months 24 (7#5)) 24
       (ft_columns feat) (Ridge.select_features (ft_columns feat))
       cut "Testland" (ft_rows feat) = [].
Proof.
  cbv zeta. split; [vm_compute; reflexivity|].
  destruct (@min_size_gate_skips_task example_numerics default_config
              (testland_months 24 (7#5)) 24
              (ft_columns (@build_features example_numerics false (testland_months 24 (7#5))))
              (Ridge.select_features
                 (ft_columns (@build_features example_numerics false (testland_months 24 (7#5)))))
              (mkCutoff (ym_to_key 2020 10) "2020-10") "Testland"
              (ft_rows (@build_features example_numerics false (testland_months 24 (7#5)))))
    as (H1 & H2 & _); [vm_compute; reflexivity|].
  split; assumption.
Defined.

(** The Testland scenario: buffer ending in 0.2, -0.1, 0.3 at cutoff
    2019-12, damping 0.9, a model that predicts [p1 = 1/2]. *)
Lemma damped_prediction_feeds_lag1_witness :
  let seed := Ridge.seed_history scenario_store "Testland" (cutoff_key scenario_cutoff) in
  last_n 3 seed = [Some (1#5); Some (-(1#10)); Some (3#10)]%Q
  /\ exists row hist',
       @Ridge.horizon_step example_numerics example_config scenario_store (1#2)%Q
         base_feature_cols "Testland" scenario_cutoff 1 seed = Some (row, hist')
       /\ fr_pred_anom row = Some (1#2)%Q
       /\ forall m, @Ridge.state_features example_numerics m hist' anom_lag1
                    = Some ((9#10) * (1#2))%Q.
Proof.
  cbv zeta. split; [vm_compute; reflexivity|].
  destruct (@Ridge.horizon_step example_numerics example_config scenario_store (1#2)%Q
              base_feature_cols "Testland" scenario_cutoff 1
              (Ridge.seed_history scenario_store "Testland" (cutoff_key scenario_cutoff)))
    as [[row hist']|] eqn:E; [| vm_compute in E; discriminate E].
  exists row, hist'. split; [reflexivity|].
  destruct (@damped_prediction_feeds_lag1 example_numerics _ _ _ _ _ _ _ [] _ _ _ E)
    as (p & Hp & _ & _ & _ & _ & Hlag & _).
  assert (Hrow : fr_pred_anom row = Some (1#2)%Q)
    by (vm_compute in E; injection E as <- _; reflexivity).
  split; [exact Hrow|].
  intros m. rewrite Hrow in Hp. injection Hp as <-.
  apply Hlag. reflexivity.
Defined.

(** *** Direct forecaster: rows and merge *)

Section DirectMerge.

Context `{Numerics}.
Import DirectMid.

Lemma direct_task_rows cfg A columns base_cols cut country dfc h r :
  In r (task cfg A columns base_cols cut country dfc h) ->
  fr_horizon r = h /\ fr_country r = country
  /\ fr_cutoff_ym r = cutoff_ym cut /\ fr_model r = "ridge_direct"%string.
Proof.
  unfold task.
  destruct (training_set _ _ _ _ _ _ _ _) as [ts|]; [|intros []].
  cbv zeta.
  destruct (key_to_ym (cutoff_key cut + h)) as [y_tgt m_tgt].
  destruct (loc A country (cutoff_key cut + h)) as [rec|]; [|intros []].
  destruct (filter _ dfc) as [| xrow ?]; [intros []|].
  destruct (all_values _) as [x|]; [|intros []].
  intros [<- | []]. simpl. auto.
Qed.

Lemma direct_rows_band cfg feat A cuts HMAX r :
  In r (direct_rows cfg feat A cuts HMAX) ->
  h_start cfg <= fr_horizon r <= h_end cfg
  /\ fr_horizon r <= HMAX
  /\ fr_model r = "ridge_direct"%string.
Proof.
  unfold direct_rows. cbv zeta. intros Hin.
  apply in_flat_map in Hin. destruct Hin as (crow & _ & Hin).
  apply in_flat_map in Hin. destruct Hin as (cg & _ & Hin).
  apply in_flat_map in Hin. destruct Hin as (h & Hh & Hin).
  apply range_In in Hh.
  apply direct_task_rows in Hin. destruct Hin as (Hhor & _ & _ & Hm).
  rewrite Hhor. repeat split; try assumption; lia.
Qed.

Lemma keep_outside cfg base :
  filter (outside_band cfg) (keep cfg base) = keep cfg base.
Proof.
  unfold keep. rewrite filter_filter. apply filter_ext.
  intros r. unfold outside_band. apply andb_diag.
Qed.

Lemma keep_inside cfg base : filter (inside_band cfg) (keep cfg base) = [].
Proof.
  unfold keep. rewrite filter_filter.
  induction base as [| r t IH]; simpl; [reflexivity|].
  unfold inside_band, outside_band in *.
  destruct ((fr_horizon r <? h_start cfg) || (fr_horizon r >? h_end cfg)); simpl; exact IH.
Qed.

Lemma filter_all {A : Type} (p : A -> bool) (l : list A) :
  (forall x, In x l -> p x = true) -> filter p l = l.
Proof.
  induction l as [| x t IH]; simpl; intros Hp; [reflexivity|].
  rewrite (Hp x (or_introl eq_refl)). f_equal. apply IH. auto.
Qed.

Lemma filter_none {A : Type} (p : A -> bool) (l : list A) :
  (forall x, In x l -> p x = false) -> filter p l = [].
Proof.
  induction l as [| x t IH]; simpl; intros Hp; [reflexivity|].
  rewrite (Hp x (or_introl eq_refl)). apply IH. auto.
Qed.

Lemma merge_split cfg base mid :
  (forall r, In r mid -> outside_band cfg r = false) ->
  Permutation (filter (outside_band cfg) (merge cfg base mid)) (keep cfg base)
  /\ Permutation (filter (inside_band cfg) (merge cfg base mid)) mid.
Proof.
  intros Hmid. unfold merge. split.
  - eapply perm_trans;
      [apply filter_perm, Permutation_sym, sort_by_perm|].
    rewrite filter_app, keep_outside, (filter_none _ mid Hmid), app_nil_r.
    apply Permutation_refl.
  - eapply perm_trans;
      [apply filter_perm, Permutation_sym, sort_by_perm|].
    rewrite filter_app, keep_inside. simpl.
    rewrite filter_all; [apply Permutation_refl|].
    intros r Hr. unfold inside_band. now rewrite (Hmid r Hr).
Qed.

(** The merge on the frames of the script (the base table as parsed, the
    merged table before it is written; the text of the two files is
    outside the embedding).  The merged rows whose horizon lies outside
    [[h_start, h_end]] are the base rows outside the band, each as often
    as in the base frame; the rows inside the band are the direct mode's
    rows and nothing else (no base row of the band survives); so a
    (country, cutoff, horizon) of the band for which the direct mode
    emitted no row has no row in the merged frame. *)
Theorem merge_replaces_band cfg feat anom cuts HMAX base :
  let mid := direct_rows cfg feat anom cuts HMAX in
  let merged := main cfg feat anom cuts HMAX base in
  Permutation (filter (outside_band cfg) merged) (filter (outside_band cfg) base)
  /\ Permutation (filter (inside_band cfg) merged) mid
  /\ (forall r, In r merged ->
        if outside_band cfg r then In r base
        else In r mid /\ fr_model r = "ridge_direct"%string)
  /\ (forall r, In r base -> outside_band cfg r = true -> In r merged)
  /\ (forall country cutoff h,
        h_start cfg <= h <= h_end cfg ->
        (forall r, In r mid ->
           ~ (fr_country r = country /\ fr_cutoff_ym r = cutoff /\ fr_horizon r = h)) ->
        forall r, In r merged ->
           ~ (fr_country r = country /\ fr_cutoff_ym r = cutoff /\ fr_horizon r = h)).
Proof.
  cbv zeta. unfold main.
  set (mid := direct_rows cfg feat anom cuts HMAX).
  assert (Hmid : forall r, In r mid -> outside_band cfg r = false).
  { intros r Hr. apply direct_rows_band in Hr. destruct Hr as (Hb & _).
    unfold outside_band. rewrite Z.gtb_ltb. apply orb_false_iff.
    split; apply Z.ltb_ge; lia. }
  destruct (merge_split cfg base mid Hmid) as [Pout Pin].
  assert (Hmem : forall r, In r (merge cfg base mid) ->
            if outside_band cfg r then In r base
            else In r mid /\ fr_model r = "ridge_direct"%string).
  { intros r Hr. destruct (outside_band cfg r) eqn:Eo.
    - assert (Hf : In r (filter (outside_band cfg) (merge cfg base mid)))
        by (apply filter_In; auto).
      apply (Permutation_in _ Pout) in Hf. unfold keep in Hf.
      now apply filter_In in Hf.
    - assert (Hf : In r (filter (inside_band cfg) (merge cfg base mid)))
        by (apply filter_In; unfold inside_band; rewrite Eo; auto).
      apply (Permutation_in _ Pin) in Hf. split; [exact Hf|].
      now apply direct_rows_band in Hf. }
  split; [exact Pout|]. split; [exact Pin|]. split; [exact Hmem|]. split.
  - intros r Hr Ho.
    assert (Hk : In r (keep cfg base)) by (unfold keep; apply filter_In; auto).
    apply (Permutation_in _ (Permutation_sym Pout)) in Hk.
    now apply filter_In in Hk.
  - intros country cutoff h Hh Hnone r Hr (Hc & Hcut & Hhor).
    specialize (Hmem r Hr).
    destruct (outside_band cfg r) eqn:Eo.
    + unfold outside_band in Eo. rewrite Z.gtb_ltb in Eo.
      apply orb_true_iff in Eo.
      destruct Eo as [Eo | Eo]; apply Z.ltb_lt in Eo; lia.
    + destruct Hmem as [Hin _]. apply (Hnone r Hin). auto.
Qed.

End DirectMerge.

(** *** Baseline blender: the weight search *)

Lemma Qlt_bool_iff (a b : Q) : Qlt_bool a b = true <-> (a < b)%Q.
Proof.
  unfold Qlt_bool. rewrite negb_true_iff. split.
  - intros E. apply Qnot_le_lt. rewrite <- Qle_bool_iff. congruence.
  - intros Hlt. apply not_true_is_false. rewrite Qle_bool_iff. now apply Qlt_not_le.
Qed.

Lemma Qlt_bool_false (a b : Q) : Qlt_bool a b = false <-> (b <= a)%Q.
Proof.
  unfold Qlt_bool. rewrite negb_false_iff. apply Qle_bool_iff.
Qed.

Section BlendSearch.

Context `{Numerics}.
Import Blend.

Variable sub : list Joined.

(** What the search returns: nothing found ([0.0] kept, RMSE still
    infinite) when no grid point has a defined RMSE; otherwise the first
    grid point, in grid order, whose RMSE is minimal among the defined
    ones. *)
Lemma search_spec (grid : list Q) :
  (search sub grid = (0%Q, None)
   /\ forall g, In g grid -> rmse_at sub g = None)
  \/ (exists pre w post r,
        grid = pre ++ w :: post
        /\ search sub grid = (w, Some r)
        /\ rmse_at sub w = Some r
        /\ (forall g r', In g pre -> rmse_at sub g = Some r' -> (r < r')%Q)
        /\ (forall g r', In g post -> rmse_at sub g = Some r' -> (r <= r')%Q)).
Proof.
  induction grid as [| x l IH] using rev_ind.
  - left. split; [reflexivity | intros g []].
  - unfold search in *. rewrite fold_left_app. simpl.
    destruct IH as [[Hres Hnone] | (pre & w & post & r & Hl & Hres & Hw & Hpre & Hpost)].
    + rewrite Hres. unfold search_step. simpl.
      destruct (rmse_at sub x) as [rx|] eqn:Ex.
      * right. exists l, x, [], rx. repeat split; auto.
        -- intros g r' Hg Hr. rewrite (Hnone g Hg) in Hr. discriminate.
        -- intros g r' [].
      * left. split; [reflexivity|].
        intros g Hg. apply in_app_or in Hg. destruct Hg as [Hg | [<- | []]]; auto.
    + rewrite Hres. unfold search_step. simpl.
      destruct (rmse_at sub x) as [rx|] eqn:Ex.
      * destruct (Qlt_bool rx r) eqn:Elt.
        -- apply Qlt_bool_iff in Elt.
           right. exists l, x, [], rx. repeat split; auto.
           ++ intros g r' Hg Hr. rewrite Hl in Hg.
              apply in_app_or in Hg. destruct Hg as [Hg | [<- | Hg]].
              ** specialize (Hpre g r' Hg Hr). lra.
              ** rewrite Hw in Hr. inversion Hr; subst. exact Elt.
              ** specialize (Hpost g r' Hg Hr). lra.
           ++ intros g r' [].
        -- apply Qlt_bool_false in Elt.
           right. exists pre, w, (post ++ [x]), r. repeat split; auto.
           ++ rewrite Hl, <- app_assoc. reflexivity.
           ++ intros g r' Hg Hr. apply in_app_or in Hg.
              destruct Hg as [Hg | [<- | []]]; [eauto|].
              rewrite Ex in Hr. inversion Hr; subst. exact Elt.
      * right. exists pre, w, (post ++ [x]), r. repeat split; auto.
        -- rewrite Hl, <- app_assoc. reflexivity.
        -- intros g r' Hg Hr. apply in_app_or in Hg.
           destruct Hg as [Hg | [<- | []]]; [eauto|]. congruence.
Qed.


End BlendSearch.

Section BlendWeights.

Context `{Numerics}.
Import Blend.



Lemma linspace_bounds (w_min w_max : Q) (num : Z) (g : Q) :
  (w_min <= w_max)%Q -> In g (linspace_points w_min w_max num) ->
  (w_min <= g /\ g <= w_max)%Q.
Proof.
  intros Hle. unfold linspace_points.
  destruct (Z.to_nat num) as [| [| n]] eqn:En.
  - intros [].
  - intros [<- | []]. lra.
  - intros Hin. apply in_app_or in Hin. destruct Hin as [Hin | [<- | []]]; [|lra].
    apply in_map_iff in Hin. destruct Hin as (i & <- & Hi).
    apply in_seq in Hi.
    assert (Hnum : num - 1 = Z.of_nat (S n)) by lia.
    rewrite Hnum.
    set (d := inject_Z (Z.of_nat (S n))).
    set (a := inject_Z (Z.of_nat i)).
    assert (Hd : (0 < d)%Q) by (apply inject_Z_pos; lia).
    assert (Ha : (0 <= a)%Q) by (apply inject_Z_nonneg; lia).
    assert (Had : (a <= d)%Q) by (unfold a, d; rewrite <- Zle_Qle; lia).
    set (q := ((w_max - w_min) / d)%Q).
    assert (Hq : (0 <= q)%Q) by (apply Qle_shift_div_l; [exact Hd | lra]).
    assert (Hqd : (q * d == w_max - w_min)%Q)
      by (unfold q; field; intros Hz; rewrite Hz in Hd; lra).
    split; nra.
Qed.







End BlendWeights.

(** *** Worked examples of the blender *)

(** C5, the code at a failing input.  Bucket "h07_12" of the example
    frame has one row with truth and baseline and one row with a baseline
    but no truth.  The search runs over both rows, every grid RMSE is NaN
    and the weight stays 0; over the rows with truth and baseline alone,
    as the claim has it, the first minimum of the grid is 0.8. *)
Lemma blend_search_keeps_rows_without_truth :
  exists grid,
    Blend.linspace 0 (4#5) 5 = Some grid
    /\ Blend.sub_frame example_buckets example_joined "h07_12" = example_joined
    /\ usable_rows example_buckets example_joined "h07_12" = firstn 1 example_joined
    /\ map (@Blend.rmse_at example_numerics
              (Blend.sub_frame example_buckets example_joined "h07_12")) grid
       = [None; None; None; None; None]
    /\ @Blend.best_weight example_numerics example_buckets example_joined grid "h07_12"
       = 0%Q
    /\ @best_weight_over_usable example_numerics example_buckets example_joined grid
         "h07_12"
       = (4#5)%Q.
Proof.
  eexists. split; [reflexivity|]. repeat split; vm_compute; reflexivity.
Qed.




(** Cutoff 2020-06 on twenty-four months of Testland: the recursive rows
    of horizons 1 to 3 are the base table; the direct mode replaces the
    band 1..2 and the row of horizon 3 stays. *)
Lemma merge_replaces_band_witness :
  let series := testland_months 24 (7#5) in
  let feat := @build_features example_numerics false series in
  let cuts := [mkCutoff (ym_to_key 2020 6) "2020-06"] in
  let base := @Ridge.main example_numerics example_config feat series cuts 3 in
  let merged := @DirectMid.main example_numerics example_cfg_direct feat series cuts 3 base in
  map (fun r => (fr_horizon r, fr_model r)) base
    = [(1, "ridge"); (2, "ridge"); (3, "ridge")]%string
  /\ map (fun r => (fr_horizon r, fr_model r)) merged
     = [(1, "ridge_direct"); (2, "ridge_direct"); (3, "ridge")]%string
  /\ Permutation (filter (outside_band example_cfg_direct) merged)
                 (filter (outside_band example_cfg_direct) base).
Proof.
  cbv zeta. split; [vm_compute; reflexivity|]. split; [vm_compute; reflexivity|].
  apply (proj1 (@merge_replaces_band example_numerics example_cfg_direct
                  (@build_features example_numerics false (testland_months 24 (7#5)))
                  (testland_months 24 (7#5))
                  [mkCutoff (ym_to_key 2020 6) "2020-06"] 3 _)).
Defined.

(** *** Metrics evaluator *)

Section GroupBy.

Context {A : Type} (key : A -> string).

Lemma group_keys_NoDup (df : list A) :
  NoDup (sort_by String.leb (nodup string_dec (map key df))).
Proof.
  eapply Permutation_NoDup; [apply sort_by_perm | apply NoDup_nodup].
Qed.

Lemma group_keys_In (df : list A) (c : string) :
  In c (sort_by String.leb (nodup string_dec (map key df)))
  <-> exists r, In r df /\ key r = c.
Proof.
  rewrite sort_by_In, nodup_In, in_map_iff. split; intros (r & H1 & H2); exists r; auto.
Qed.


End GroupBy.





Section MetricsFacts.

Context `{Numerics}.
Import Metrics.






End MetricsFacts.

Section MetricsAggregation.

Context `{Numerics}.
Import Metrics.




End MetricsAggregation.


(** ** Part III. Further properties of the forecasting scripts *)

(** *** TimeKey codec *)

(** X1.  [key_to_ym] inverts [ym_to_key] on calendar months, [ym_to_key]
    inverts [key_to_ym] on every key, the decoded month is always in
    1..12, keys order (year, month) pairs chronologically, and a shift of
    twelve keys is the same month of the next year. *)
Theorem timekey_round_trip (y m y' m' k : Z) :
  (1 <= m <= 12 -> key_to_ym (ym_to_key y m) = (y, m))
  /\ ym_to_key (fst (key_to_ym k)) (snd (key_to_ym k)) = k
  /\ 1 <= snd (key_to_ym k) <= 12
  /\ (1 <= m <= 12 -> 1 <= m' <= 12 ->
      (ym_to_key y m < ym_to_key y' m' <-> y < y' \/ (y = y' /\ m < m')))
  /\ key_to_ym (k + 12) = (fst (key_to_ym k) + 1, snd (key_to_ym k)).
Proof.
  unfold ym_to_key, key_to_ym. cbn [fst snd].
  repeat split; intros;
    try (f_equal; Z.to_euclidean_division_equations; lia);
    try (Z.to_euclidean_division_equations; lia).
Qed.

Lemma timekey_round_trip_witness :
  key_to_ym (ym_to_key 2019 12) = (2019, 12)
  /\ (ym_to_key 2019 12 < ym_to_key 2020 1 <-> 2019 < 2020 \/ (2019 = 2020 /\ 12 < 1)).
Proof.
  split.
  - apply (proj1 (timekey_round_trip 2019 12 2020 1 0)). lia.
  - apply (proj1 (proj2 (proj2 (proj2 (timekey_round_trip 2019 12 2020 1 0))))); lia.
Defined.

(** *** Horizon buckets *)

(** X2.  [bucket_name] returns the name of the first bucket of the list
    whose range contains the horizon, and "h_na" when no bucket does. *)
Theorem bucket_name_first_match (h : Z) (buckets : list Bucket) :
  ((forall b, In b buckets -> ~ (b_h_start b <= h <= b_h_end b)) ->
     bucket_name h buckets = "h_na"%string)
  /\ (forall pre b post,
        buckets = pre ++ b :: post ->
        (forall b', In b' pre -> ~ (b_h_start b' <= h <= b_h_end b')) ->
        b_h_start b <= h <= b_h_end b ->
        bucket_name h buckets = b_name b).
Proof.
  assert (Hskip : forall pre rest,
            (forall b', In b' pre -> ~ (b_h_start b' <= h <= b_h_end b')) ->
            bucket_name h (pre ++ rest) = bucket_name h rest).
  { induction pre as [| b0 pre IH]; intros rest Hpre; simpl; [reflexivity|].
    destruct ((b_h_start b0 <=? h) && (h <=? b_h_end b0)) eqn:E.
    - apply andb_prop in E. destruct E as [E1 E2].
      apply Z.leb_le in E1. apply Z.leb_le in E2.
      exfalso. apply (Hpre b0); [now left | lia].
    - apply IH. intros b' Hb'. apply Hpre. now right. }
  split.
  - intros Hnone. rewrite <- (app_nil_r buckets). now rewrite Hskip.
  - intros pre b post -> Hpre Hb. rewrite Hskip by exact Hpre. simpl.
    replace ((b_h_start b <=? h) && (h <=? b_h_end b)) with true; [reflexivity|].
    symmetry. apply andb_true_intro. split; apply Z.leb_le; lia.
Qed.

Lemma bucket_name_first_match_witness :
  bucket_name 9 example_buckets = "h07_12"%string
  /\ bucket_name 30 example_buckets = "h_na"%string.
Proof.
  split.
  - apply (proj2 (bucket_name_first_match 9 example_buckets)
             [mkBucket "h01_06" 1 6] (mkBucket "h07_12" 7 12) []).
    + reflexivity.
    + intros b' [<- | []]. simpl. lia.
    + simpl. lia.
  - apply (proj1 (bucket_name_first_match 30 example_buckets)).
    intros b [<- | [<- | []]]; simpl; lia.
Defined.

(** *** Training sets: what makes a task skip *)

Lemma all_rows_values_None (X : list (list cell)) :
  all_rows_values X = None <-> exists r, In r X /\ In None r.
Proof.
  induction X as [| r t IH]; simpl.
  - split; [discriminate | intros (r & [] & _)].
  - destruct (all_values r) as [v|] eqn:Er.
    + destruct (all_rows_values t) as [vs|].
      * split; [discriminate|]. intros (r' & [<- | Hin] & Hn).
        -- apply all_values_None in Hn. congruence.
        -- assert (Hex : exists r0, In r0 t /\ In None r0) by eauto.
           apply IH in Hex. discriminate.
      * split; [|reflexivity]. intros _.
        destruct (proj1 IH eq_refl) as (r' & Hin & Hn). eauto.
    + split; [|reflexivity]. intros _. exists r. split; [now left|].
      now apply all_values_None.
Qed.

Lemma used_column_complete (columns base : list FeatCol) (train : list FeatRow)
    (c : FeatCol) (r : FeatRow) :
  In c (filter (fun c => has_col columns c
                         && negb (existsb (fun r => isna (f_get c r)) train)) base) ->
  In r train -> f_get c r <> None.
Proof.
  intros Hc Hr Hnone. apply filter_In in Hc. destruct Hc as [_ Hc].
  apply andb_prop in Hc. destruct Hc as [_ Hc].
  apply negb_true_iff in Hc.
  assert (Hex : existsb (fun r => isna (f_get c r)) train = true).
  { apply existsb_exists. exists r. split; [exact Hr|].
    unfold isna. now rewrite Hnone. }
  congruence.
Qed.

Lemma matrix_complete (columns base : list FeatCol) (train : list FeatRow)
    (keep_row : FeatRow -> bool) :
  let use_cols := filter (fun c => has_col columns c
                                   && negb (existsb (fun r => isna (f_get c r)) train)) base in
  all_rows_values (map (fun r => map (fun c => f_get c r) use_cols) (filter keep_row train))
  <> None.
Proof.
  cbv zeta. intros Hnone. apply all_rows_values_None in Hnone.
  destruct Hnone as (row & Hrow & Hn).
  apply in_map_iff in Hrow. destruct Hrow as (r & <- & Hr).
  apply filter_In in Hr. destruct Hr as [Hr _].
  apply in_map_iff in Hn. destruct Hn as (c & Hc & Hin).
  exact (used_column_complete columns base train c r Hin Hr Hc).
Qed.

Lemma targets_complete {A : Type} (target : A -> cell) (l : list A) :
  all_values (map target (filter (fun r => notna (target r)) l)) <> None.
Proof.
  intros Hnone. apply all_values_None in Hnone.
  apply in_map_iff in Hnone. destruct Hnone as (r & Hr & Hin).
  apply filter_In in Hin. destruct Hin as [_ Hn]. rewrite Hr in Hn. discriminate.
Qed.

(** X3.  A recursive (cutoff, country) task is skipped exactly when
    fewer than [min_train_rows] rows lie at or before the cutoff, or no
    candidate column is present and complete on those rows, or fewer than
    [min_train_rows] of them have a target.  The last guard of the
    script, on NaN left in [X] or [y], never fires: a column is used only
    if it has no missing cell on the rows up to the cutoff, and rows
    without target are dropped before. *)
Theorem recursive_training_set_skips cfg columns bfl k_cut dfc :
  let train := filter (fun r => f_key r <=? k_cut) dfc in
  let use_cols :=
    filter (fun c => has_col columns c
                     && negb (existsb (fun r => isna (f_get c r)) train)) bfl in
  (Ridge.training_set cfg columns bfl k_cut dfc = None <->
     Z.of_nat (length train) < Ridge.min_train_rows cfg
     \/ use_cols = []
     \/ Z.of_nat (length (filter (eligible k_cut) dfc)) < Ridge.min_train_rows cfg)
  /\ (forall ts, Ridge.training_set cfg columns bfl k_cut dfc = Some ts ->
        Ridge.ts_use_cols ts = use_cols
        /\ length (Ridge.ts_X ts) = length (Ridge.ts_rows ts)
        /\ Forall (fun x => length x = length use_cols) (Ridge.ts_X ts)).
Proof.
  cbv zeta. unfold Ridge.training_set.
  set (train := filter (fun r => f_key r <=? k_cut) dfc).
  set (use_cols := filter _ bfl).
  assert (Hel : filter (fun r => notna (f_target_anom_t_plus_1 r)) train
                = filter (eligible k_cut) dfc)
    by (unfold train; now rewrite filter_filter).
  destruct (Z.of_nat (length train) <? Ridge.min_train_rows cfg) eqn:E1.
  { apply Z.ltb_lt in E1. split; [tauto | discriminate]. }
  apply Z.ltb_ge in E1.
  destruct use_cols as [| c0 cs] eqn:Eu.
  { split; [tauto | discriminate]. }
  rewrite Hel.
  destruct (Z.of_nat (length (filter (eligible k_cut) dfc)) <? Ridge.min_train_rows cfg) eqn:E2.
  { apply Z.ltb_lt in E2. split; [tauto | discriminate]. }
  apply Z.ltb_ge in E2.
  pose proof (matrix_complete columns bfl train
                (fun r => notna (f_target_anom_t_plus_1 r))) as HX.
  cbv zeta in HX. fold use_cols in HX. rewrite Eu, Hel in HX.
  pose proof (targets_complete f_target_anom_t_plus_1 train) as Hy. rewrite Hel in Hy.
  destruct (all_rows_values _) as [X|] eqn:EX; [|congruence].
  destruct (all_values _) as [y|] eqn:Ey; [|congruence].
  split.
  - split; [discriminate|]. intros [H | [H | H]]; try discriminate; lia.
  - intros ts Hts. inversion Hts; subst ts; simpl.
    apply all_rows_values_Some in EX.
    split; [reflexivity|]. split.
    + apply (f_equal (@length _)) in EX. now rewrite !length_map in EX.
    + apply Forall_forall. intros x Hx.
      assert (Hin : In (map Some x) (map (map Some) X)) by (now apply in_map).
      rewrite <- EX in Hin. apply in_map_iff in Hin. destruct Hin as (r & Hr & _).
      apply (f_equal (@length _)) in Hr. now rewrite !length_map in Hr.
Qed.

(** X4.  A direct (cutoff, country, horizon) task trains no model exactly
    when fewer than [min_train_rows] rows have TimeKey <= cutoff - h, or
    no candidate column is present and complete on those rows, or fewer
    than [min_train_rows] of them have their anomaly at TimeKey + h in
    the store; its last NaN guard never fires either. *)
Theorem direct_training_set_skips cfg A columns base_cols country k_cut h dfc :
  let train := filter (fun r => f_key r <=? k_cut - h) dfc in
  let use_cols :=
    filter (fun c => has_col columns c
                     && negb (existsb (fun r => isna (f_get c r)) train)) base_cols in
  DirectMid.training_set cfg A columns base_cols country k_cut h dfc = None <->
     Z.of_nat (length train) < DirectMid.min_train_rows cfg
     \/ use_cols = []
     \/ Z.of_nat (length (filter (eligible_direct A country k_cut h) dfc))
        < DirectMid.min_train_rows cfg.
Proof.
  cbv zeta. unfold DirectMid.training_set.
  set (train := filter (fun r => f_key r <=? k_cut - h) dfc).
  set (use_cols := filter _ base_cols).
  assert (Hel : filter (fun r => notna (DirectMid.targ_at A country h (f_key r))) train
                = filter (eligible_direct A country k_cut h) dfc)
    by (unfold train; now rewrite filter_filter).
  destruct (Z.of_nat (length train) <? DirectMid.min_train_rows cfg) eqn:E1.
  { apply Z.ltb_lt in E1. tauto. }
  apply Z.ltb_ge in E1.
  destruct use_cols as [| c0 cs] eqn:Eu.
  { tauto. }
  rewrite Hel.
  destruct (Z.of_nat (length (filter (eligible_direct A country k_cut h) dfc))
            <? DirectMid.min_train_rows cfg) eqn:E2.
  { apply Z.ltb_lt in E2. tauto. }
  apply Z.ltb_ge in E2.
  pose proof (matrix_complete columns base_cols train
                (fun r => notna (DirectMid.targ_at A country h (f_key r)))) as HX.
  cbv zeta in HX. fold use_cols in HX. rewrite Eu, Hel in HX.
  pose proof (targets_complete (fun r => DirectMid.targ_at A country h (f_key r)) train) as Hy.
  cbv beta in Hy. rewrite Hel in Hy.
  destruct (all_rows_values _) as [X|] eqn:EX; [|congruence].
  destruct (all_values _) as [y|] eqn:Ey; [|congruence].
  split; [discriminate|]. intros [H | [H | H]]; try discriminate; lia.
Qed.

(** *** History buffer *)

Lemma ffill_from_length (last : cell) (s : list cell) :
  length (ffill_from last s) = length s.
Proof.
  revert last. induction s as [| [v|] t IH]; intros last; simpl; [reflexivity| |];
    now rewrite IH.
Qed.

Lemma ffill_from_Some (v : Q) (s : list cell) :
  Forall (fun c => c <> None) (ffill_from (Some v) s).
Proof.
  revert v. induction s as [| [w|] t IH]; intros v; simpl; constructor;
    try discriminate; apply IH.
Qed.

(** Forward fill leaves the present values where they are. *)
Lemma ffill_from_keeps (last : cell) (s : list cell) (i : nat) (v : Q) :
  nth i s None = Some v -> nth i (ffill_from last s) None = Some v.
Proof.
  revert last i. induction s as [| [w|] t IH]; intros last [| i] Hi; simpl in *;
    try discriminate; auto.
Qed.

(** After a forward fill the last entry is present as soon as some entry
    is. *)
Lemma ffill_from_last (last0 : cell) (s : list cell) :
  s <> [] -> (last0 <> None \/ exists v, In (Some v) s) ->
  last (ffill_from last0 s) None <> None.
Proof.
  revert last0. induction s as [| c t IH]; intros last0 Hne Hex; [congruence|].
  destruct t as [| c' t'].
  - destruct c as [w|]; simpl; [discriminate|].
    destruct Hex as [Hl | (v & [Hv | []])]; [exact Hl | discriminate].
  - assert (Hstep : forall x last', (last' <> None \/ exists v, In (Some v) (c' :: t')) ->
                last (x :: ffill_from last' (c' :: t')) None <> None).
    { intros x last' H'.
      pose proof (IH last' ltac:(discriminate) H') as Hl.
      destruct (ffill_from last' (c' :: t')) as [| y ys] eqn:E.
      - apply (f_equal (@length _)) in E. rewrite ffill_from_length in E. discriminate.
      - exact Hl. }
    destruct c as [w|].
    + change (ffill_from last0 (Some w :: c' :: t'))
        with (Some w :: ffill_from (Some w) (c' :: t')).
      apply Hstep. left. discriminate.
    + change (ffill_from last0 (None :: c' :: t'))
        with (last0 :: ffill_from last0 (c' :: t')).
      apply Hstep. destruct Hex as [Hl | (v & [Hv | Hv])]; [now left | discriminate |].
      right. eauto.
Qed.

Lemma ffill_from_all_None (s : list cell) :
  (forall v, ~ In (Some v) s) -> ffill_from None s = s.
Proof.
  induction s as [| [w|] t IH]; intros Hn; simpl; [reflexivity| |].
  - exfalso. apply (Hn w). now left.
  - f_equal. apply IH. intros v Hv. apply (Hn v). now right.
Qed.

Lemma bfill_ffill_filled (s : list cell) :
  (exists v, In (Some v) s) -> Forall (fun c => c <> None) (bfill (ffill s)).
Proof.
  intros Hex. unfold bfill, ffill.
  assert (Hne : s <> []) by (destruct Hex as (v & Hv); intros ->; exact Hv).
  pose proof (ffill_from_last None s Hne (or_intror Hex)) as Hlast.
  set (f := ffill_from None s) in *.
  destruct (rev f) as [| c t] eqn:Er.
  - apply (f_equal (@rev _)) in Er. rewrite rev_involutive in Er. simpl in Er.
    rewrite Er in Hlast. simpl in Hlast. congruence.
  - assert (Hc : c = last f None).
    { apply (f_equal (@rev _)) in Er. rewrite rev_involutive in Er. simpl in Er.
      rewrite Er. now rewrite last_last. }
    destruct c as [v|]; [|congruence].
    change (ffill_from None (Some v :: t)) with (Some v :: ffill_from (Some v) t).
    apply Forall_rev. constructor; [discriminate | apply ffill_from_Some].
Qed.

Lemma bfill_ffill_empty (s : list cell) :
  (forall v, ~ In (Some v) s) -> bfill (ffill s) = s.
Proof.
  intros Hn. unfold bfill, ffill. rewrite (ffill_from_all_None s Hn).
  rewrite ffill_from_all_None, rev_involutive; [reflexivity|].
  intros v Hv. apply in_rev in Hv. exact (Hn v Hv).
Qed.

Lemma bfill_ffill_keeps (s : list cell) (i : nat) (v : Q) :
  nth i s None = Some v -> nth i (bfill (ffill s)) None = Some v.
Proof.
  intros Hi. unfold bfill, ffill.
  assert (Hlt : (i < length s)%nat).
  { destruct (Nat.lt_ge_cases i (length s)) as [H | H]; [exact H|].
    rewrite nth_overflow in Hi by exact H. discriminate. }
  apply (ffill_from_keeps None) in Hi.
  set (f := ffill_from None s) in *.
  assert (Hlen : length f = length s) by apply ffill_from_length.
  rewrite rev_nth by (rewrite ffill_from_length, length_rev; lia).
  rewrite ffill_from_length, length_rev.
  apply ffill_from_keeps.
  rewrite rev_nth by lia.
  replace (length f - S (length f - S i))%nat with i by lia. exact Hi.
Qed.

Lemma map_all_None {A : Type} (f : A -> cell) (l : list A) :
  (forall x, In x l -> f x = None) -> map f l = repeat None (length l).
Proof.
  induction l as [| x t IH]; intros Hf; simpl; [reflexivity|].
  rewrite (Hf x (or_introl eq_refl)). f_equal. apply IH. intros y Hy. apply Hf. now right.
Qed.

Lemma seed_history_length_60 (L : list AnomRow) (country : string) (k_cut : Z) :
  length (Ridge.seed_history L country k_cut) = 60%nat.
Proof.
  unfold Ridge.seed_history, bfill, ffill.
  rewrite length_rev, ffill_from_length, length_rev, ffill_from_length.
  rewrite length_map, range_length. lia.
Qed.

(** X5.  The seeded history buffer always has 60 entries (the months
    cutoff-59 .. cutoff).  If the store holds an anomaly for at least one
    of those months, the buffer has no missing entry after the forward
    and backward fill, and every stored anomaly sits at its own month; if
    it holds none, all 60 entries are missing. *)
Theorem seed_history_filled (L : list AnomRow) (country : string) (k_cut : Z) :
  let stored kk := match loc L country kk with
                   | Some r => a_anomaly_c r
                   | None => None
                   end in
  let hist := Ridge.seed_history L country k_cut in
  length hist = 60%nat
  /\ ((exists kk v, k_cut - 59 <= kk <= k_cut /\ stored kk = Some v) ->
      Forall (fun c => c <> None) hist)
  /\ ((forall kk, k_cut - 59 <= kk <= k_cut -> stored kk = None) ->
      hist = repeat None 60)
  /\ (forall kk v, k_cut - 59 <= kk <= k_cut -> stored kk = Some v ->
        nth (Z.to_nat (kk - (k_cut - 59))) hist None = Some v).
Proof.
  cbv zeta. unfold Ridge.seed_history.
  set (stored := fun kk => match loc L country kk with
                           | Some r => a_anomaly_c r
                           | None => None
                           end).
  set (raw := map stored (range (k_cut - 59) (k_cut + 1))).
  assert (Hlen : length raw = 60%nat).
  { unfold raw. rewrite length_map, range_length. lia. }
  assert (Hnth : forall kk, k_cut - 59 <= kk <= k_cut ->
            nth (Z.to_nat (kk - (k_cut - 59))) raw None = stored kk).
  { intros kk Hkk. unfold raw, range.
    replace (Z.to_nat (k_cut + 1 - (k_cut - 59))) with 60%nat by lia.
    rewrite map_map.
    rewrite (nth_indep _ None (stored (k_cut - 59 + Z.of_nat 0)))
      by (rewrite length_map, length_seq; lia).
    rewrite (map_nth (fun i => stored (k_cut - 59 + Z.of_nat i)) (seq 0 60) 0%nat).
    rewrite seq_nth by lia. f_equal. lia. }
  split; [|split; [|split]].
  - unfold bfill, ffill. now rewrite length_rev, ffill_from_length, length_rev,
                               ffill_from_length.
  - intros (kk & v & Hkk & Hv). apply bfill_ffill_filled.
    change (stored kk = Some v) in Hv. rewrite <- (Hnth kk Hkk) in Hv.
    exists v. rewrite <- Hv. apply nth_In. lia.
  - intros Hnone.
    assert (Hraw : raw = repeat None 60).
    { replace 60%nat with (length (range (k_cut - 59) (k_cut + 1)))
        by (rewrite range_length; lia).
      apply map_all_None. intros kk Hkk. apply range_In in Hkk. apply Hnone. lia. }
    rewrite Hraw. apply bfill_ffill_empty.
    intros v Hv. apply repeat_spec in Hv. discriminate.
  - intros kk v Hkk Hv. change (stored kk = Some v) in Hv.
    apply bfill_ffill_keeps. now rewrite Hnth.
Qed.

Lemma update_history_length cfg p hist :
  length (Ridge.update_history cfg p hist) = Nat.min 120 (S (length hist)).
Proof.
  rewrite update_history_eq, last_n_length, length_app.
  change (length [Some (clamp01 (Ridge.damping cfg) * p)%Q]) with 1%nat. lia.
Qed.

Lemma update_history_complete cfg p hist :
  Forall (fun c => c <> None) hist ->
  Forall (fun c => c <> None) (Ridge.update_history cfg p hist).
Proof.
  intros Hh. rewrite update_history_eq. unfold last_n.
  apply Forall_forall. intros c Hc.
  assert (Hin : In c (hist ++ [Some (clamp01 (Ridge.damping cfg) * p)%Q])).
  { rewrite <- (firstn_skipn (length (hist ++ [Some (clamp01 (Ridge.damping cfg) * p)%Q]) - 120)).
    apply in_or_app. now right. }
  apply in_app_or in Hin. destruct Hin as [Hin | [<- | []]]; [|discriminate].
  rewrite Forall_forall in Hh. now apply Hh.
Qed.

Section HistoryInvariant.

Context `{Numerics}.

(** X6.  While the horizon loop runs, the history buffer grows by one
    entry per emitted horizon and is capped at 120: after the horizons
    [hs] have all been forecast from the seeded buffer it holds
    min(120, 60 + |hs|) entries; and a buffer without missing entries
    never gains one. *)
Theorem history_buffer_length cfg L model use_cols country cut hs st :
  loop_state cfg L model use_cols country cut hs
    (Ridge.seed_history L country (cutoff_key cut)) = Some st ->
  length st = Nat.min 120 (60 + length hs)
  /\ (Forall (fun c => c <> None) (Ridge.seed_history L country (cutoff_key cut)) ->
      Forall (fun c => c <> None) st).
Proof.
  assert (Hgen : forall hs hist st,
            (length hist <= 120)%nat ->
            loop_state cfg L model use_cols country cut hs hist = Some st ->
            length st = Nat.min 120 (length hist + length hs)
            /\ (Forall (fun c => c <> None) hist -> Forall (fun c => c <> None) st)).
  { clear hs st. induction hs as [| h hs' IH]; intros hist st Hlen Hst; simpl in Hst.
    - inversion Hst; subst. split; [cbn [length]; lia | auto].
    - destruct (Ridge.horizon_step cfg L model use_cols country cut h hist)
        as [[row hist']|] eqn:E; [|discriminate].
      apply horizon_step_Some in E.
      destruct E as (rec & x & p & _ & _ & _ & _ & _ & _ & _ & Hh).
      assert (Hlen' : length hist' = Nat.min 120 (S (length hist)))
        by (rewrite Hh; apply update_history_length).
      destruct (IH hist' st ltac:(lia) Hst) as [IH1 IH2].
      split; [rewrite IH1, Hlen'; cbn [length]; lia|].
      intros Hc. apply IH2. rewrite Hh. now apply update_history_complete. }
  intros Hst.
  pose proof (seed_history_length_60 L country (cutoff_key cut)) as H60.
  assert (Hle : (length (Ridge.seed_history L country (cutoff_key cut)) <= 120)%nat)
    by (rewrite H60; lia).
  destruct (Hgen hs _ st Hle Hst) as [H1 H2].
  split; [rewrite H1, H60; reflexivity | exact H2].
Qed.

End HistoryInvariant.

Lemma history_buffer_length_witness :
  exists st,
    @loop_state example_numerics example_config scenario_store (1#2)%Q
      base_feature_cols "Testland" scenario_cutoff [1; 2]
      (Ridge.seed_history scenario_store "Testland" (cutoff_key scenario_cutoff)) = Some st
    /\ length st = 62%nat.
Proof.
  destruct (@loop_state example_numerics example_config scenario_store (1#2)%Q
              base_feature_cols "Testland" scenario_cutoff [1; 2]
              (Ridge.seed_history scenario_store "Testland" (cutoff_key scenario_cutoff)))
    as [st|] eqn:E; [| vm_compute in E; discriminate E].
  exists st. split; [reflexivity|].
  exact (proj1 (@history_buffer_length example_numerics _ _ _ _ _ _ _ _ E)).
Defined.

(** *** Emitted rows of the recursive forecaster *)

Lemma np_clip_bounds (x lo hi : Q) :
  (lo <= hi)%Q -> (lo <= np_clip x lo hi /\ np_clip x lo hi <= hi)%Q.
Proof.
  intros Hle. unfold np_clip.
  destruct (Qlt_bool x lo) eqn:E1; [lra|].
  apply Qlt_bool_false in E1.
  destruct (Qlt_bool hi x) eqn:E2; [lra|].
  apply Qlt_bool_false in E2. lra.
Qed.

Section EmittedRows.

Context `{Numerics}.
Import Ridge.

(** The row a pass of the horizon loop emits. *)
Lemma horizon_step_row cfg L model use_cols country cut h hist row hist' :
  horizon_step cfg L model use_cols country cut h hist = Some (row, hist') ->
  exists rec p,
    loc L country (cutoff_key cut + h) = Some rec
    /\ row = mkForecastRow country (fst (key_to_ym (cutoff_key cut + h)))
               (snd (key_to_ym (cutoff_key cut + h))) (cutoff_ym cut) h (Some p)
               (cell_add (a_clim_temp_c rec)
                  (Some ((1 - blend_weight h (blend_start cfg) (blend_end cfg)
                                (blend_max cfg)) * p)%Q))
               (a_temp_c rec) "ridge"
    /\ hist' = update_history cfg p hist
    /\ ((0 < clip_anom cfg)%Q -> (- clip_anom cfg <= p /\ p <= clip_anom cfg)%Q).
Proof.
  unfold horizon_step. simpl.
  destruct (loc L country (cutoff_key cut + h)) as [rec|]; [|discriminate].
  destruct (all_values _) as [x|]; [|discriminate].
  intros E. inversion E; subst; clear E.
  exists rec. eexists. split; [reflexivity|]. split; [reflexivity|].
  split; [reflexivity|].
  intros Hc. replace (Qlt_bool 0 (clip_anom cfg)) with true
    by (symmetry; now apply Qlt_bool_iff).
  apply np_clip_bounds. lra.
Qed.

Lemma horizon_loop_In cfg L model use_cols country cut hs hist r :
  In r (horizon_loop cfg L model use_cols country cut hs hist) ->
  exists h hist0 hist1,
    In h hs /\ horizon_step cfg L model use_cols country cut h hist0 = Some (r, hist1).
Proof.
  revert hist. induction hs as [| h hs' IH]; intros hist; simpl; [intros []|].
  destruct (horizon_step cfg L model use_cols country cut h hist) as [[row hist']|] eqn:E;
    [|intros []].
  intros [<- | Hin].
  - exists h, hist, hist'. auto.
  - destruct (IH hist' Hin) as (h0 & a & b & Hh0 & Hs). exists h0, a, b. auto.
Qed.

(** X7.  With clipping enabled ([clip_anom > 0]) the emitted predicted
    anomaly lies in [[-clip_anom, clip_anom]], and so does the value
    appended to the history buffer (the damping factor as applied lies in
    [[0, 1]]). *)
Theorem clipped_prediction_bounded cfg L model use_cols country cut h hist row hist' :
  horizon_step cfg L model use_cols country cut h hist = Some (row, hist') ->
  (0 < clip_anom cfg)%Q ->
  exists p v,
    fr_pred_anom row = Some p
    /\ (- clip_anom cfg <= p /\ p <= clip_anom cfg)%Q
    /\ tail_at 1 hist' = Some v
    /\ (- clip_anom cfg <= v /\ v <= clip_anom cfg)%Q.
Proof.
  intros Hstep Hclip.
  destruct (horizon_step_row _ _ _ _ _ _ _ _ _ _ Hstep) as (rec & p & _ & Hrow & Hh & Hb).
  specialize (Hb Hclip).
  exists p, (clamp01 (damping cfg) * p)%Q.
  split; [rewrite Hrow; reflexivity|]. split; [exact Hb|]. split.
  - rewrite Hh, update_history_eq. change 120%nat with (S 119).
    rewrite last_n_snoc. apply tail_at_1_snoc.
  - pose proof (clamp01_range (damping cfg)) as Hd. nra.
Qed.

(** X8.  Every row written by the recursive forecaster belongs to one of
    the cutoffs and to a country of the feature table; its horizon is in
    1..HMAX, its year and month decode [cutoff_key + horizon], the store
    holds that month for the country and the row's truth is its stored
    temperature, its tag is "ridge", and the predicted temperature is the
    stored climatology plus (1 - ramp weight) times the predicted
    anomaly. *)
Theorem recursive_rows_well_formed cfg feat anom cuts HMAX r :
  In r (main cfg feat anom cuts HMAX) ->
  exists cut rec p,
    In cut cuts
    /\ fr_cutoff_ym r = cutoff_ym cut
    /\ 1 <= fr_horizon r <= HMAX
    /\ (fr_year r, fr_month r) = key_to_ym (cutoff_key cut + fr_horizon r)
    /\ (exists f, In f (ft_rows feat) /\ f_country f = fr_country r)
    /\ loc anom (fr_country r) (cutoff_key cut + fr_horizon r) = Some rec
    /\ fr_truth_c r = a_temp_c rec
    /\ fr_model r = "ridge"%string
    /\ fr_pred_anom r = Some p
    /\ fr_pred_c r
       = cell_add (a_clim_temp_c rec)
           (Some ((1 - blend_weight (fr_horizon r) (blend_start cfg) (blend_end cfg)
                         (blend_max cfg)) * p)%Q).
Proof.
  unfold main, run_tasks, tasks. intros Hin.
  apply in_flat_map in Hin. destruct Hin as ([cut [country dfc]] & Ht & Hin).
  apply in_flat_map in Ht. destruct Ht as (cut' & Hcut & Ht).
  apply in_map_iff in Ht. destruct Ht as (cg & Heq & Hcg).
  inversion Heq; subst cut' cg; clear Heq.
  unfold groupby_string in Hcg. apply in_map_iff in Hcg.
  destruct Hcg as (c & Hc & Hkey). inversion Hc; subst; clear Hc.
  apply group_keys_In in Hkey. destruct Hkey as (f & Hf & Hfc).
  cbn [fst snd] in Hin. unfold task in Hin.
  destruct (training_set _ _ _ _ _) as [ts|]; [|destruct Hin].
  cbv zeta in Hin.
  apply horizon_loop_In in Hin. destruct Hin as (h & hist0 & hist1 & Hh & Hstep).
  apply range_In in Hh.
  destruct (horizon_step_row _ _ _ _ _ _ _ _ _ _ Hstep) as (rec & p & Hloc & Hrow & _ & _).
  exists cut, rec, p. subst r.
  cbn [fr_cutoff_ym fr_horizon fr_year fr_month fr_country fr_truth_c fr_model
       fr_pred_anom fr_pred_c].
  split; [exact Hcut|]. split; [reflexivity|]. split; [lia|].
  split; [symmetry; apply surjective_pairing|].
  split; [exists f; auto|].
  split; [exact Hloc|]. repeat split; reflexivity.
Qed.

End EmittedRows.

(** The scenario with clipping at 0.25: the model predicts 0.5, the row
    carries 0.25. *)
Lemma clipped_prediction_bounded_witness :
  exists row hist' p v,
    @Ridge.horizon_step example_numerics clipping_config scenario_store (1#2)%Q
      base_feature_cols "Testland" scenario_cutoff 1
      (Ridge.seed_history scenario_store "Testland" (cutoff_key scenario_cutoff))
    = Some (row, hist')
    /\ fr_pred_anom row = Some p
    /\ (- (1#4) <= p /\ p <= 1#4)%Q
    /\ tail_at 1 hist' = Some v
    /\ (- (1#4) <= v /\ v <= 1#4)%Q.
Proof.
  destruct (@Ridge.horizon_step example_numerics clipping_config scenario_store (1#2)%Q
              base_feature_cols "Testland" scenario_cutoff 1
              (Ridge.seed_history scenario_store "Testland" (cutoff_key scenario_cutoff)))
    as [[row hist']|] eqn:E; [| vm_compute in E; discriminate E].
  destruct (@clipped_prediction_bounded example_numerics _ _ _ _ _ _ _ _ _ _ E)
    as (p & v & H1 & H2 & H3 & H4); [reflexivity|].
  exists row, hist', p, v. auto.
Defined.

Lemma recursive_rows_well_formed_witness :
  let series := testland_series (7#5) in
  let feat := @build_features example_numerics false series in
  let cuts := [mkCutoff (ym_to_key 2020 2) "2020-02"] in
  exists r cut,
    In r (@Ridge.main example_numerics example_config feat series cuts 5)
    /\ In cut cuts
    /\ 1 <= fr_horizon r <= 5
    /\ (fr_year r, fr_month r) = key_to_ym (cutoff_key cut + fr_horizon r)
    /\ fr_model r = "ridge"%string.
Proof.
  cbv zeta.
  assert (E : exists r rest,
            @Ridge.main example_numerics example_config
              (@build_features example_numerics false (testland_series (7#5)))
              (testland_series (7#5)) [mkCutoff (ym_to_key 2020 2) "2020-02"] 5
            = r :: rest)
    by (vm_compute; eexists; eexists; reflexivity).
  destruct E as (r & rest & E).
  assert (Hin : In r (@Ridge.main example_numerics example_config
              (@build_features example_numerics false (testland_series (7#5)))
              (testland_series (7#5)) [mkCutoff (ym_to_key 2020 2) "2020-02"] 5))
    by (rewrite E; now left).
  destruct (@recursive_rows_well_formed example_numerics _ _ _ _ _ _ Hin)
    as (cut & rec & p & H1 & _ & H3 & H4 & _ & _ & _ & H8 & _).
  exists r, cut.
  split; [exact Hin|]. split; [exact H1|]. split; [exact H3|].
  split; [exact H4 | exact H8].
Defined.

(** *** Rows of the direct forecaster and the merged table *)


Lemma insert_sorted_Sorted {A : Type} (leb : A -> A -> bool) (x : A) (l : list A) :
  (forall a b, leb a b = false -> leb b a = true) ->
  Sorted (fun a b => leb a b = true) l ->
  Sorted (fun a b => leb a b = true) (insert_sorted leb x l).
Proof.
  intros Htot Hs. induction Hs as [| y t Hs IH Hhd]; simpl.
  - constructor; constructor.
  - destruct (leb x y) eqn:E.
    + constructor; [constructor; assumption | constructor; exact E].
    + constructor; [exact IH|].
      destruct t as [| z t']; simpl.
      * constructor. now apply Htot.
      * destruct (leb x z); constructor; [now apply Htot | now inversion Hhd].
Qed.

Lemma sort_by_Sorted {A : Type} (leb : A -> A -> bool) (l : list A) :
  (forall a b, leb a b = false -> leb b a = true) ->
  Sorted (fun a b => leb a b = true) (sort_by leb l).
Proof.
  intros Htot. induction l as [| x t IH]; simpl; [constructor|].
  now apply insert_sorted_Sorted.
Qed.

Lemma then_compare_antisym (c1 c2 d1 d2 : comparison) :
  c1 = CompOpp d1 -> c2 = CompOpp d2 ->
  then_compare c1 c2 = CompOpp (then_compare d1 d2).
Proof. intros -> ->. now destruct d1. Qed.

Lemma keycols_compare_antisym (a b : ForecastRow) :
  keycols_compare a b = CompOpp (keycols_compare b a).
Proof.
  unfold keycols_compare.
  repeat apply then_compare_antisym;
    first [apply String.compare_antisym | apply Z.compare_antisym].
Qed.

Lemma keycols_leb_total (a b : ForecastRow) :
  keycols_leb a b = false -> keycols_leb b a = true.
Proof.
  unfold keycols_leb. rewrite (keycols_compare_antisym b a).
  now destruct (keycols_compare a b).
Qed.

Section DirectRows.

Context `{Numerics}.
Import DirectMid.

(** X10.  Every row the direct mode emits belongs to one of the cutoffs
    and to a country of the feature table which has a feature row at the
    cutoff itself; its horizon lies in the band and is at most [HMAX],
    its year and month decode [cutoff_key + horizon], the store holds
    that month and the row's truth is its stored temperature, the tag is
    "ridge_direct", and the predicted temperature is the predicted
    anomaly plus the stored climatology. *)
Theorem direct_rows_well_formed cfg feat A cuts HMAX r :
  In r (direct_rows cfg feat A cuts HMAX) ->
  exists cut rec f p,
    In cut cuts
    /\ fr_cutoff_ym r = cutoff_ym cut
    /\ h_start cfg <= fr_horizon r <= Z.min (h_end cfg) HMAX
    /\ (fr_year r, fr_month r) = key_to_ym (cutoff_key cut + fr_horizon r)
    /\ In f (ft_rows feat) /\ f_country f = fr_country r /\ f_key f = cutoff_key cut
    /\ loc A (fr_country r) (cutoff_key cut + fr_horizon r) = Some rec
    /\ fr_truth_c r = a_temp_c rec
    /\ fr_model r = "ridge_direct"%string
    /\ fr_pred_anom r = Some p
    /\ fr_pred_c r = cell_add (Some p) (a_clim_temp_c rec).
Proof.
  unfold direct_rows. cbv zeta. intros Hin.
  apply in_flat_map in Hin. destruct Hin as (cut & Hcut & Hin).
  apply in_flat_map in Hin. destruct Hin as ([country g] & Hcg & Hin).
  apply in_flat_map in Hin. destruct Hin as (h & Hh & Hin).
  apply range_In in Hh. cbn [fst snd] in Hin.
  unfold groupby_string in Hcg. apply in_map_iff in Hcg.
  destruct Hcg as (c & Hc & _). inversion Hc; subst c g; clear Hc.
  unfold task in Hin.
  destruct (training_set _ _ _ _ _ _ _ _) as [ts|]; [|destruct Hin].
  cbv zeta in Hin.
  destruct (key_to_ym (cutoff_key cut + h)) as [y_tgt m_tgt] eqn:Ekey.
  destruct (loc A country (cutoff_key cut + h)) as [rec|] eqn:Eloc; [|destruct Hin].
  destruct (filter _ _) as [| xrow rest] eqn:Ex; [destruct Hin|].
  destruct (all_values _) as [x|]; [|destruct Hin].
  destruct Hin as [<- | []].
  assert (Hx : In xrow (filter (fun r => f_key r =? cutoff_key cut)
                          (sort_by by_key
                             (filter (fun r => String.eqb (f_country r) country)
                                     (ft_rows feat)))))
    by (rewrite Ex; now left).
  apply filter_In in Hx. destruct Hx as [Hx Hk]. apply Z.eqb_eq in Hk.
  apply sort_by_In in Hx. apply filter_In in Hx. destruct Hx as [Hx Hc].
  apply String.eqb_eq in Hc.
  exists cut, rec, xrow. eexists.
  cbn [fr_cutoff_ym fr_horizon fr_year fr_month fr_country fr_truth_c fr_model
       fr_pred_anom fr_pred_c].
  split; [exact Hcut|]. split; [reflexivity|]. split; [lia|].
  split; [now rewrite Ekey|]. split; [exact Hx|]. split; [exact Hc|].
  split; [exact Hk|]. split; [exact Eloc|]. repeat split; reflexivity.
Qed.

(** X11.  The merge deletes every base row of the band
    [[h_start, h_end]], but the direct mode only forecasts up to
    [min(h_end, HMAX)]: the merged table has no row whose horizon lies in
    the band above [HMAX], and when the band starts above [HMAX] (or is
    empty) the direct mode emits nothing and the merged table is the base
    table without its band rows. *)
Theorem merge_drops_band_beyond_hmax cfg feat anom cuts HMAX base :
  (forall r, In r (main cfg feat anom cuts HMAX base) ->
     h_start cfg <= fr_horizon r <= h_end cfg -> fr_horizon r <= HMAX)
  /\ (Z.min (h_end cfg) HMAX < h_start cfg ->
      direct_rows cfg feat anom cuts HMAX = []
      /\ Permutation (main cfg feat anom cuts HMAX base) (keep cfg base)).
Proof.
  split.
  - intros r Hr Hband. unfold main, merge in Hr.
    apply sort_by_In in Hr. apply in_app_or in Hr. destruct Hr as [Hr | Hr].
    + unfold keep in Hr. apply filter_In in Hr. destruct Hr as [_ Ho].
      rewrite Z.gtb_ltb in Ho. apply orb_true_iff in Ho.
      destruct Ho as [Ho | Ho]; apply Z.ltb_lt in Ho; lia.
    + apply direct_rows_band in Hr. lia.
  - intros Hempty.
    assert (Hnil : direct_rows cfg feat anom cuts HMAX = []).
    { destruct (direct_rows cfg feat anom cuts HMAX) as [| r t] eqn:E; [reflexivity|].
      assert (Hr : In r (direct_rows cfg feat anom cuts HMAX)) by (rewrite E; now left).
      apply direct_rows_band in Hr. lia. }
    split; [exact Hnil|].
    unfold main, merge. rewrite Hnil, app_nil_r.
    apply Permutation_sym, sort_by_perm.
Qed.

(** X12.  The merged table is written sorted by (country, year, month,
    cutoff_ym, horizon), and it holds the kept base rows and the direct
    rows, each as often as they occur. *)
Theorem merged_table_sorted cfg feat anom cuts HMAX base :
  Sorted (fun a b => keycols_leb a b = true) (main cfg feat anom cuts HMAX base)
  /\ Permutation (main cfg feat anom cuts HMAX base)
                 (keep cfg base ++ direct_rows cfg feat anom cuts HMAX).
Proof.
  unfold main, merge. split.
  - apply sort_by_Sorted, keycols_leb_total.
  - apply Permutation_sym, sort_by_perm.
Qed.

End DirectRows.

Lemma direct_rows_well_formed_witness :
  let series := testland_months 24 (7#5) in
  let feat := @build_features example_numerics false series in
  let cuts := [mkCutoff (ym_to_key 2020 6) "2020-06"] in
  exists r cut f,
    In r (@DirectMid.direct_rows example_numerics example_cfg_direct feat series cuts 3)
    /\ In cut cuts
    /\ (fr_year r, fr_month r) = key_to_ym (cutoff_key cut + fr_horizon r)
    /\ In f (ft_rows feat) /\ f_key f = cutoff_key cut
    /\ fr_model r = "ridge_direct"%string.
Proof.
  cbv zeta.
  assert (E : exists r rest,
            @DirectMid.direct_rows example_numerics example_cfg_direct
              (@build_features example_numerics false (testland_months 24 (7#5)))
              (testland_months 24 (7#5)) [mkCutoff (ym_to_key 2020 6) "2020-06"] 3
            = r :: rest)
    by (vm_compute; eexists; eexists; reflexivity).
  destruct E as (r & rest & E).
  assert (Hin : In r (@DirectMid.direct_rows example_numerics example_cfg_direct
              (@build_features example_numerics false (testland_months 24 (7#5)))
              (testland_months 24 (7#5)) [mkCutoff (ym_to_key 2020 6) "2020-06"] 3))
    by (rewrite E; now left).
  destruct (@direct_rows_well_formed example_numerics _ _ _ _ _ _ Hin)
    as (cut & rec & f & p & H1 & _ & _ & H4 & H5 & _ & H7 & _ & _ & H10 & _).
  exists r, cut, f.
  split; [exact Hin|]. split; [exact H1|]. split; [exact H4|].
  split; [exact H5|]. split; [exact H7 | exact H10].
Defined.

(** *** The weight grid *)

Lemma Sorted_snoc {A : Type} (R : A -> A -> Prop) (l : list A) (x : A) :
  Sorted R l -> (forall y, In y l -> R y x) -> Sorted R (l ++ [x]).
Proof.
  intros Hs. induction Hs as [| y t Hs IH Hhd]; intros Hx; simpl.
  - constructor; constructor.
  - constructor.
    + apply IH. intros z Hz. apply Hx. now right.
    + destruct t as [| z t']; simpl.
      * constructor. apply Hx. now left.
      * constructor. now inversion Hhd.
Qed.

Lemma Sorted_map_seq (f : nat -> Q) (a n : nat) :
  (forall i, (f i <= f (S i))%Q) -> Sorted Qle (map f (seq a n)).
Proof.
  intros Hf. revert a. induction n as [| n IH]; intros a; simpl; [constructor|].
  constructor; [apply IH|].
  destruct n; simpl; constructor. apply Hf.
Qed.

(** X13.  [linspace(w_min, w_max, num)] raises for a negative [num].
    For [num >= 0] the grid has [num] points (none for [num = 0]); it
    starts at [w_min] and, from two points on, ends at [w_max] itself;
    for [w_min <= w_max] it is in ascending order and stays within
    [[w_min, w_max]]. *)
Theorem linspace_grid (w_min w_max : Q) (num : Z) :
  (num < 0 -> Blend.linspace w_min w_max num = None)
  /\ (0 <= num ->
      exists grid,
        Blend.linspace w_min w_max num = Some grid
        /\ length grid = Z.to_nat num
        /\ (1 <= num -> (hd 0%Q grid == w_min)%Q)
        /\ (2 <= num -> last grid 0%Q = w_max)
        /\ ((w_min <= w_max)%Q ->
            Sorted Qle grid
            /\ forall g, In g grid -> (w_min <= g /\ g <= w_max)%Q)).
Proof.
  split.
  { intros Hneg. unfold Blend.linspace.
    now replace (num <? 0) with true by (symmetry; apply Z.ltb_lt; exact Hneg). }
  intros Hpos. exists (Blend.linspace_points w_min w_max num).
  split.
  { unfold Blend.linspace.
    now replace (num <? 0) with false by (symmetry; apply Z.ltb_ge; exact Hpos). }
  split; [|split; [|split]].
  - unfold Blend.linspace_points.
    destruct (Z.to_nat num) as [| [| n]]; [reflexivity | reflexivity |].
    rewrite length_app, length_map, length_seq. simpl. lia.
  - intros Hnum. unfold Blend.linspace_points.
    destruct (Z.to_nat num) as [| [| n]] eqn:En; [lia | reflexivity |].
    simpl. ring.
  - intros Hnum. unfold Blend.linspace_points.
    destruct (Z.to_nat num) as [| [| n]] eqn:En; [lia | lia |].
    apply last_last.
  - intros Hle. split; [|intros g Hg; eapply linspace_bounds; eassumption].
    pose proof (linspace_bounds w_min w_max num) as Hb.
    unfold Blend.linspace_points in *.
    destruct (Z.to_nat num) as [| [| n]] eqn:En.
    + constructor.
    + constructor; constructor.
    + apply Sorted_snoc.
      * apply Sorted_map_seq. intros i.
        assert (Hnum : num - 1 = Z.of_nat (S n)) by lia. rewrite Hnum.
        assert (Hd : (0 < inject_Z (Z.of_nat (S n)))%Q) by (apply inject_Z_pos; lia).
        assert (Hq : (0 <= (w_max - w_min) / inject_Z (Z.of_nat (S n)))%Q)
          by (apply Qle_shift_div_l; [exact Hd | lra]).
        assert (Hi : (inject_Z (Z.of_nat i) <= inject_Z (Z.of_nat (S i)))%Q)
          by (rewrite <- Zle_Qle; lia).
        nra.
      * intros y Hy. apply (Hb y Hle). apply in_or_app. now left.
Qed.

(** *** Baseline blender: join, best baseline and blended prediction *)

(** X14.  The best baseline of a row is one of its two baselines; it is
    missing only when both are; when the truth and both baselines are
    known it is the one with the smaller absolute error (the climatology
    baseline on a tie); when the truth is unknown it is the climatology
    baseline if present, else lag-12. *)
Theorem pred_c_base_choice (j : Blend.Joined) :
  (Blend.pred_c_base j = Blend.j_pred_c_clim j
   \/ Blend.pred_c_base j = Blend.j_pred_c_lag12 j)
  /\ (Blend.pred_c_base j = None <->
      Blend.j_pred_c_clim j = None /\ Blend.j_pred_c_lag12 j = None)
  /\ (forall t c l,
        fr_truth_c (Blend.j_row j) = Some t ->
        Blend.j_pred_c_clim j = Some c -> Blend.j_pred_c_lag12 j = Some l ->
        exists b, Blend.pred_c_base j = Some b
                  /\ (Qabs (b - t) <= Qabs (c - t))%Q
                  /\ (Qabs (b - t) <= Qabs (l - t))%Q
                  /\ ((Qabs (c - t) <= Qabs (l - t))%Q -> b = c))
  /\ (fr_truth_c (Blend.j_row j) = None ->
      Blend.pred_c_base j
      = match Blend.j_pred_c_clim j with
        | Some c => Some c
        | None => Blend.j_pred_c_lag12 j
        end).
Proof.
  unfold Blend.pred_c_base.
  destruct (Blend.j_pred_c_clim j) as [c|], (Blend.j_pred_c_lag12 j) as [l|],
           (fr_truth_c (Blend.j_row j)) as [t|];
    cbn [cell_abs cell_sub cell_lift2 notna].
  - destruct (Qle_bool (Qabs (c - t)) (Qabs (l - t))) eqn:E.
    + apply Qle_bool_iff in E.
      split; [now left|]. split; [split; [discriminate | intros [? _]; discriminate]|].
      split; [|discriminate].
      intros t' c' l' Ht Hc Hl. inversion Ht; inversion Hc; inversion Hl; subst.
      exists c'. repeat split; auto; lra.
    + assert (Hlt : ~ (Qabs (c - t) <= Qabs (l - t))%Q)
        by (rewrite <- Qle_bool_iff; congruence).
      split; [now right|]. split; [split; [discriminate | intros [? _]; discriminate]|].
      split; [|discriminate].
      intros t' c' l' Ht Hc Hl. inversion Ht; inversion Hc; inversion Hl; subst.
      exists l'. repeat split; lra.
  - split; [now left|]. split; [split; [discriminate | intros [? _]; discriminate]|].
    split; [intros; discriminate | reflexivity].
  - split; [now left|]. split; [split; [discriminate | intros [? _]; discriminate]|].
    split; [intros; discriminate | discriminate].
  - split; [now left|]. split; [split; [discriminate | intros [? _]; discriminate]|].
    split; [intros; discriminate | reflexivity].
  - split; [now right|]. split; [split; [discriminate | intros [_ ?]; discriminate]|].
    split; [intros; discriminate | discriminate].
  - split; [now right|]. split; [split; [discriminate | intros [_ ?]; discriminate]|].
    split; [intros; discriminate | reflexivity].
  - split; [now left|]. split; [tauto|].
    split; [intros; discriminate | discriminate].
  - split; [now left|]. split; [tauto|].
    split; [intros; discriminate | reflexivity].
Qed.

Lemma pred_c_base_choice_witness :
  exists b, Blend.pred_c_base (hd (Blend.mkJoined
                                     (mkForecastRow "" 0 0 "" 0 None None None "")
                                     None None) example_joined) = Some b
            /\ (Qabs (b - 10) <= Qabs (12 - 10))%Q.
Proof.
  destruct (proj1 (proj2 (proj2 (pred_c_base_choice
              (hd (Blend.mkJoined (mkForecastRow "" 0 0 "" 0 None None None "")
                     None None) example_joined)))) 10%Q 10%Q 12%Q eq_refl eq_refl eq_refl)
    as (b & Hb & _ & Hl & _).
  exists b. split; [exact Hb | exact Hl].
Defined.

Section BlendJoin.




Context `{Numerics}.


End BlendJoin.

Section BlendRow.

Context `{Numerics}.
Import Blend.

Lemma best_weight_grid buckets df grid name :
  best_weight buckets df grid name = 0%Q \/ In (best_weight buckets df grid name) grid.
Proof.
  unfold best_weight.
  destruct (sub_frame buckets df name) as [| j0 t]; [now left|].
  destruct (search_spec (j0 :: t) grid)
    as [[Hres _] | (pre & w & post & r & Hg & Hres & _)]; rewrite Hres; simpl.
  - now left.
  - right. rewrite Hg. apply in_elt.
Qed.

Lemma blend_w_grid buckets df grid buckets_to_opt j :
  blend_w buckets df grid buckets_to_opt j = 0%Q
  \/ In (blend_w buckets df grid buckets_to_opt j) grid.
Proof.
  unfold blend_w, best_w_get.
  destruct (isna (pred_c_base j)); [now left|].
  destruct (existsb _ buckets_to_opt); [apply best_weight_grid | now left].
Qed.

(** X16.  A row without a best baseline, or of a bucket that is not
    targeted for optimization, gets blend weight 0 and keeps its
    prediction; and whatever the weight, a missing prediction stays
    missing and a present one stays present. *)
Theorem blend_leaves_untargeted_rows buckets df grid buckets_to_opt j :
  (fr_pred_c (blend_row buckets df grid buckets_to_opt j) = None
   <-> fr_pred_c (j_row j) = None)
  /\ (pred_c_base j = None \/ ~ In (bucket_of buckets j) buckets_to_opt ->
      blend_w buckets df grid buckets_to_opt j = 0%Q
      /\ forall p, fr_pred_c (j_row j) = Some p ->
           exists p', fr_pred_c (blend_row buckets df grid buckets_to_opt j) = Some p'
                      /\ (p' == p)%Q).
Proof.
  unfold blend_row. cbv zeta. cbn [fr_pred_c]. split.
  - destruct (fr_pred_c (j_row j)); simpl; split; congruence.
  - intros Hoff.
    assert (Hw : blend_w buckets df grid buckets_to_opt j = 0%Q).
    { unfold blend_w, best_w_get. destruct Hoff as [Hb | Hn].
      - now rewrite Hb.
      - destruct (isna (pred_c_base j)); [reflexivity|].
        destruct (existsb (String.eqb (bucket_of buckets j)) buckets_to_opt) eqn:E;
          [|reflexivity].
        apply existsb_exists in E. destruct E as (n & Hn' & Heq).
        apply String.eqb_eq in Heq. subst n. contradiction. }
    split; [exact Hw|].
    intros p Hp. rewrite Hp, Hw. simpl. eexists. split; [reflexivity|]. ring.
Qed.

End BlendRow.

(** *** Metrics evaluator: the per-country table *)

Lemma list_sum_map_add {A : Type} (f g : A -> nat) (l : list A) :
  list_sum (map (fun x => f x + g x)%nat l) = (list_sum (map f l) + list_sum (map g l))%nat.
Proof. induction l as [| x t IH]; simpl; [reflexivity | rewrite IH; lia]. Qed.

Lemma list_sum_indicator (keys : list string) (k : string) :
  NoDup keys -> In k keys ->
  list_sum (map (fun c => if String.eqb k c then 1 else 0)%nat keys) = 1%nat.
Proof.
  induction 1 as [| c t Hc Hnd IH]; intros Hin; [destruct Hin|]. simpl.
  destruct (String.eqb k c) eqn:E.
  - apply String.eqb_eq in E. subst c. f_equal.
    clear IH Hin. induction t as [| d t IH]; simpl; [reflexivity|].
    destruct (String.eqb k d) eqn:E.
    + apply String.eqb_eq in E. subst d. exfalso. apply Hc. now left.
    + apply IH; [intros Hk; apply Hc; now right | now inversion Hnd].
  - destruct Hin as [-> | Hin]; [rewrite String.eqb_refl in E; discriminate|].
    now apply IH.
Qed.

Lemma list_sum_zero {A : Type} (l : list A) : list_sum (map (fun _ => 0%nat) l) = 0%nat.
Proof. induction l; simpl; auto. Qed.

(** Grouping neither loses nor repeats a row. *)
Lemma group_count {A : Type} (key : A -> string) (p : A -> bool) (keys : list string)
    (df : list A) :
  NoDup keys -> (forall r, In r df -> In (key r) keys) ->
  list_sum (map (fun c => length (filter p (filter (fun r => String.eqb (key r) c) df))) keys)
  = length (filter p df).
Proof.
  intros Hnd. induction df as [| r t IH]; intros Hkeys; simpl.
  - apply list_sum_zero.
  - rewrite (map_ext _ (fun c => ((if String.eqb (key r) c then if p r then 1 else 0 else 0)
                                  + length (filter p (filter (fun r => String.eqb (key r) c) t)))%nat)).
    2:{ intros c. destruct (String.eqb (key r) c); simpl; [destruct (p r)|]; reflexivity. }
    rewrite list_sum_map_add, IH by (intros r' Hr'; apply Hkeys; now right).
    destruct (p r); simpl.
    + rewrite list_sum_indicator; [reflexivity | exact Hnd | apply Hkeys; now left].
    + rewrite (map_ext _ (fun _ => 0%nat)), list_sum_zero; [reflexivity|].
      intros c. now destruct (String.eqb (key r) c).
Qed.

Lemma list_sum_flat_map {A B : Type} (f : A -> list B) (g : B -> nat) (l : list A) :
  list_sum (map g (flat_map f l)) = list_sum (map (fun x => list_sum (map g (f x))) l).
Proof.
  induction l as [| x t IH]; simpl; [reflexivity|].
  now rewrite map_app, list_sum_app, IH.
Qed.

Lemma dropna_length {A : Type} (f : A -> cell) (l : list A) :
  length (dropna (map f l)) = length (filter (fun r => notna (f r)) l).
Proof.
  induction l as [| x t IH]; simpl; [reflexivity|].
  destruct (f x); simpl; now rewrite ?length_app, IH.
Qed.

Lemma NoDup_pairs (cs : list string) (bs : string -> list string) :
  NoDup cs -> (forall c, NoDup (bs c)) ->
  NoDup (flat_map (fun c => map (pair c) (bs c)) cs).
Proof.
  intros Hcs Hbs. induction Hcs as [| c t Hc Hnd IH]; simpl; [constructor|].
  apply NoDup_app.
  - apply NoDup_map_NoDup_ForallPairs; [|apply Hbs].
    intros x y _ _ Heq. now inversion Heq.
  - exact IH.
  - intros [c' b'] Hin1 Hin2.
    apply in_map_iff in Hin1. destruct Hin1 as (b & Heq & _). inversion Heq; subst.
    apply in_flat_map in Hin2. destruct Hin2 as (c0 & Hc0 & Hin2).
    apply in_map_iff in Hin2. destruct Hin2 as (b0 & Heq0 & _). inversion Heq0; subst.
    contradiction.
Qed.

Lemma map_flat_map_comm {A B C : Type} (g : B -> C) (f : A -> list B) (l : list A) :
  map g (flat_map f l) = flat_map (fun x => map g (f x)) l.
Proof.
  induction l as [| x t IH]; simpl; [reflexivity|]. now rewrite map_app, IH.
Qed.

Lemma flat_map_over_map {A B C : Type} (f : B -> list C) (h : A -> B) (l : list A) :
  flat_map f (map h l) = flat_map (fun x => f (h x)) l.
Proof.
  induction l as [| x t IH]; simpl; [reflexivity|]. now rewrite IH.
Qed.

Section MetricsTable.

Context `{Numerics}.
Import Metrics.

(** X18.  The per-country table has exactly one row for each (country,
    bucket) pair that has forecast rows, and its counts [n] add up to the
    number of forecast rows whose error is known: the grouping neither
    loses a row nor counts one twice. *)
Theorem by_country_partitions buckets m :
  NoDup (map (fun s => (cs_country s, cs_bucket s)) (by_country buckets m))
  /\ (forall c b,
        In (c, b) (map (fun s => (cs_country s, cs_bucket s)) (by_country buckets m))
        <-> exists r, In r m /\ fr_country r = c /\ bucket_of buckets r = b)
  /\ list_sum (map cs_n (by_country buckets m))
     = length (filter (fun r => notna (ae r)) m).
Proof.
  assert (Hkeys : map (fun s => (cs_country s, cs_bucket s)) (by_country buckets m)
                  = flat_map (fun c => map (pair c)
                                (sort_by String.leb
                                   (nodup string_dec
                                      (map (bucket_of buckets)
                                         (filter (fun r => String.eqb (fr_country r) c) m)))))
                      (sort_by String.leb (nodup string_dec (map fr_country m)))).
  { unfold by_country, groupby_string.
    rewrite map_flat_map_comm, flat_map_over_map.
    apply flat_map_ext. intros c. cbn [fst snd]. rewrite !map_map. reflexivity. }
  split; [|split].
  - rewrite Hkeys. apply NoDup_pairs; [apply group_keys_NoDup|].
    intros c. apply group_keys_NoDup.
  - intros c b. rewrite Hkeys, in_flat_map. split.
    + intros (c' & Hc' & Hin). apply in_map_iff in Hin.
      destruct Hin as (b' & Heq & Hb'). inversion Heq; subst c' b'.
      apply group_keys_In in Hb'. destruct Hb' as (r & Hr & Hb).
      apply filter_In in Hr. destruct Hr as [Hr Hc]. apply String.eqb_eq in Hc.
      exists r. auto.
    + intros (r & Hr & Hc & Hb). exists c. split.
      * apply group_keys_In. exists r. auto.
      * apply in_map. apply group_keys_In. exists r. split; [|exact Hb].
        apply filter_In. split; [exact Hr|]. now apply String.eqb_eq.
  - unfold by_country. rewrite list_sum_flat_map.
    unfold groupby_string. rewrite map_map. cbn [fst snd].
    rewrite <- (group_count fr_country (fun r => notna (ae r))
                  (sort_by String.leb (nodup string_dec (map fr_country m))) m
                  (group_keys_NoDup fr_country m)).
    2:{ intros r Hr. apply group_keys_In. exists r. auto. }
    f_equal. apply map_ext. intros c.
    rewrite !map_map. cbn [fst snd agg_country cs_n].
    rewrite <- (group_count (bucket_of buckets) (fun r => notna (ae r))
                  (sort_by String.leb
                     (nodup string_dec
                        (map (bucket_of buckets)
                           (filter (fun r => String.eqb (fr_country r) c) m))))
                  (filter (fun r => String.eqb (fr_country r) c) m)
                  (group_keys_NoDup (bucket_of buckets) _)).
    2:{ intros r Hr. apply group_keys_In. exists r. auto. }
    f_equal. apply map_ext. intros b. apply dropna_length.
Qed.

End MetricsTable.

(** *** Feature builder *)

Lemma imap_length {A B : Type} (f : nat -> A -> B) (k : nat) (l : list A) :
  length (imap f k l) = length l.
Proof. revert k. induction l as [| x t IH]; intros k; simpl; [reflexivity | now rewrite IH]. Qed.

Lemma imap_nth_error {A B : Type} (f : nat -> A -> B) (k : nat) (l : list A) (i : nat) :
  nth_error (imap f k l) i
  = match nth_error l i with
    | Some x => Some (f (k + i)%nat x)
    | None => None
    end.
Proof.
  revert k i. induction l as [| x t IH]; intros k [| i]; simpl; try reflexivity.
  - now rewrite Nat.add_0_r.
  - rewrite IH. now rewrite Nat.add_succ_r.
Qed.

Lemma imap_nth {A B : Type} (f : nat -> A -> B) (k : nat) (l : list A) (i : nat)
    (d : B) (d' : A) :
  (i < length l)%nat -> nth i (imap f k l) d = f (k + i)%nat (nth i l d').
Proof.
  intros Hi. pose proof (imap_nth_error f k l i) as Hn.
  destruct (nth_error l i) as [x|] eqn:Ex; [|apply nth_error_None in Ex; lia].
  rewrite (nth_error_nth _ _ d Hn). now rewrite (nth_error_nth _ _ d' Ex).
Qed.

Lemma shift_length (n : nat) (s : list cell) : length (shift n s) = length s.
Proof.
  unfold shift. rewrite length_firstn, length_app, repeat_length.
  apply Nat.min_l. apply Nat.le_add_l.
Qed.

Lemma shift_nth (n : nat) (s : list cell) (i : nat) :
  (i < length s)%nat -> nth i (shift n s) None = lagged n i s.
Proof.
  intros Hi. unfold shift, lagged. rewrite nth_firstn.
  replace (i <? length s)%nat with true by (symmetry; apply Nat.ltb_lt; exact Hi).
  destruct (i <? n)%nat eqn:E.
  - apply Nat.ltb_lt in E. rewrite app_nth1 by (rewrite repeat_length; exact E).
    apply nth_repeat.
  - apply Nat.ltb_ge in E. rewrite app_nth2 by (rewrite repeat_length; exact E).
    now rewrite repeat_length.
Qed.

Lemma shift_back1_nth (s : list cell) (i : nat) :
  nth i (shift_back1 s) None = nth (S i) s None.
Proof.
  destruct s as [| x t]; simpl; [now destruct i|].
  destruct (Nat.lt_ge_cases i (length t)) as [Hlt | Hge].
  - now apply app_nth1.
  - rewrite app_nth2 by exact Hge. rewrite (nth_overflow t) by exact Hge.
    destruct (i - length t)%nat as [| [| k]]; reflexivity.
Qed.

Lemma dropna_all_values (l : list cell) (v : list Q) :
  all_values l = Some v -> dropna l = v.
Proof.
  revert v. induction l as [| [q|] t IH]; simpl; intros v Hv; try discriminate.
  - now inversion Hv.
  - destruct (all_values t) as [v'|]; [|discriminate]. inversion Hv; subst.
    now rewrite (IH v' eq_refl).
Qed.

Lemma dropna_length_le (l : list cell) : (length (dropna l) <= length l)%nat.
Proof.
  induction l as [| [q|] t IH]; simpl; lia.
Qed.

Lemma dropna_length_lt (l : list cell) :
  all_values l = None -> (length (dropna l) < length l)%nat.
Proof.
  induction l as [| [q|] t IH]; simpl; intros Hn; try discriminate.
  - destruct (all_values t); [discriminate|]. specialize (IH eq_refl). lia.
  - pose proof (dropna_length_le t). lia.
Qed.

Lemma all_values_length (l : list cell) (v : list Q) :
  all_values l = Some v -> length v = length l.
Proof.
  intros Hv. apply all_values_Some in Hv. subst l. now rewrite length_map.
Qed.

Lemma window_shift1 (w i : nat) (a : list cell) :
  (i < length a)%nat -> (w <= i)%nat -> window w i (shift 1 a) = prev w i a.
Proof.
  intros Hi Hw. unfold window, prev.
  apply (nth_ext _ _ None None).
  - rewrite length_firstn, length_skipn, shift_length, length_map, length_seq. lia.
  - intros j Hj.
    rewrite length_firstn, length_skipn, shift_length in Hj.
    rewrite nth_firstn.
    replace (j <? Nat.min w (S i))%nat with true by (symmetry; apply Nat.ltb_lt; lia).
    rewrite nth_skipn, shift_nth by lia. unfold lagged.
    replace (S i - w + j <? 1)%nat with false by (symmetry; apply Nat.ltb_ge; lia).
    rewrite (nth_indep (map (fun j => nth j a None) (seq (i - w) w)) None (nth 0 a None))
      by (rewrite length_map, length_seq; lia).
    rewrite (map_nth (fun j => nth j a None)), seq_nth by lia.
    f_equal. lia.
Qed.

Lemma window_shift1_short (w i : nat) (a : list cell) :
  (i < length a)%nat -> (i < w)%nat ->
  (length (dropna (window w i (shift 1 a))) < w)%nat.
Proof.
  intros Hi Hw. unfold window.
  replace (S i - w)%nat with 0%nat by lia. cbn [skipn].
  replace (Nat.min w (S i)) with (S i) by lia.
  unfold shift. destruct a as [| x t]; [simpl in Hi; lia|].
  cbn [repeat app length firstn dropna flat_map app].
  pose proof (dropna_length_le (firstn i (firstn (length t) (x :: t)))) as Hle.
  rewrite length_firstn in Hle.
  change (firstn (S (length t)) (None :: x :: t)) with (None :: firstn (length t) (x :: t)).
  cbn [firstn dropna flat_map app]. unfold dropna in Hle.
  eapply Nat.le_lt_trans; [exact Hle|].
  eapply Nat.le_lt_trans; [apply Nat.le_min_l | exact Hw].
Qed.

Lemma rolling_shift1_nth (w : nat) (agg : list Q -> Q) (a : list cell) (i : nat) :
  (i < length a)%nat ->
  nth i (rolling w agg (shift 1 a)) None = rolled w i agg a.
Proof.
  intros Hi. unfold rolling, rolled.
  assert (Hi' : (i < length (shift 1 a))%nat) by (rewrite shift_length; exact Hi).
  rewrite (@imap_nth cell (option Q) _ 0 (shift 1 a) i None None Hi'). cbn [Nat.add].
  destruct (w <=? i)%nat eqn:Ew.
  - apply Nat.leb_le in Ew. rewrite window_shift1 by assumption.
    assert (Hlen : length (prev w i a) = w)
      by (unfold prev; now rewrite length_map, length_seq).
    destruct (all_values (prev w i a)) as [v|] eqn:Ev.
    + rewrite (dropna_all_values _ _ Ev).
      rewrite (all_values_length _ _ Ev), Hlen, Nat.eqb_refl. reflexivity.
    + apply dropna_length_lt in Ev. rewrite Hlen in Ev.
      replace (length (dropna (prev w i a)) =? w)%nat with false
        by (symmetry; apply Nat.eqb_neq; lia).
      reflexivity.
  - apply Nat.leb_gt in Ew.
    pose proof (window_shift1_short w i a Hi Ew) as Hs.
    replace (length (dropna (window w i (shift 1 a))) =? w)%nat with false
      by (symmetry; apply Nat.eqb_neq; lia).
    reflexivity.
Qed.

Lemma nth_firstn_eq {A : Type} (i j : nat) (a a' : list A) (d : A) :
  firstn i a = firstn i a' -> (j < i)%nat -> nth j a d = nth j a' d.
Proof.
  intros Hf Hj.
  pose proof (nth_firstn i a j d) as H1. pose proof (nth_firstn i a' j d) as H2.
  replace (j <? i)%nat with true in H1, H2 by (symmetry; apply Nat.ltb_lt; exact Hj).
  rewrite <- H1, <- H2, Hf. reflexivity.
Qed.

Lemma lagged_past (n i : nat) (a a' : list cell) :
  (1 <= n)%nat -> firstn i a = firstn i a' -> lagged n i a = lagged n i a'.
Proof.
  intros Hn Hf. unfold lagged. destruct (i <? n)%nat eqn:E; [reflexivity|].
  apply Nat.ltb_ge in E. apply (nth_firstn_eq i); [exact Hf | lia].
Qed.

Lemma rolled_past (w i : nat) (agg : list Q -> Q) (a a' : list cell) :
  firstn i a = firstn i a' -> rolled w i agg a = rolled w i agg a'.
Proof.
  intros Hf. unfold rolled. destruct (w <=? i)%nat eqn:E; [|reflexivity].
  apply Nat.leb_le in E.
  replace (prev w i a') with (prev w i a); [reflexivity|].
  unfold prev. apply map_ext_in. intros j Hj. apply in_seq in Hj.
  apply (nth_firstn_eq i); [exact Hf | lia].
Qed.

Section FeatureBuilder.

Context `{Numerics}.

(** The feature row built at position [i] of a country's rows in
    chronological order. *)
Lemma add_features_nth (g : list AnomRow) (i : nat) (r : FeatRow) :
  nth_error (add_features g) i = Some r ->
  exists src,
    nth_error (sort_by year_month_leb g) i = Some src
    /\ r = mkFeatRow (a_country src) (a_year src) (a_month src)
             (a_temp_c src) (a_clim_temp_c src) (a_anomaly_c src)
             (Some (month_sin (a_month src))) (Some (month_cos (a_month src)))
             (lagged 1 i (map a_anomaly_c (sort_by year_month_leb g)))
             (lagged 12 i (map a_anomaly_c (sort_by year_month_leb g)))
             (rolled 3 i mean (map a_anomaly_c (sort_by year_month_leb g)))
             (rolled 3 i std0 (map a_anomaly_c (sort_by year_month_leb g)))
             (lagged 24 i (map a_anomaly_c (sort_by year_month_leb g)))
             (rolled 12 i mean (map a_anomaly_c (sort_by year_month_leb g)))
             (nth (S i) (map a_anomaly_c (sort_by year_month_leb g)) None).
Proof.
  unfold add_features. cbv zeta.
  set (s := sort_by year_month_leb g). set (a := map a_anomaly_c s).
  rewrite imap_nth_error. cbn [Nat.add].
  destruct (nth_error s i) as [src|] eqn:Es; [|discriminate].
  intros Hr. inversion Hr; subst r; clear Hr.
  assert (Hi : (i < length a)%nat).
  { unfold a. rewrite length_map. apply nth_error_Some. congruence. }
  exists src. split; [reflexivity|].
  rewrite !shift_nth, !rolling_shift1_nth, shift_back1_nth by exact Hi.
  reflexivity.
Qed.

(** X19.  The lag and rolling features of a row are computed from the
    rows before it only: two series of a country that agree on the first
    [i] rows (in chronological order) give the row at position [i] the
    same [anom_lag1], [anom_lag12], [anom_lag24], [roll_mean_3],
    [roll_std_3] and [roll_mean_12], whatever the anomalies at position
    [i] and after. *)
Theorem features_read_only_the_past (g g' : list AnomRow) (i : nat) (r r' : FeatRow) :
  firstn i (sort_by year_month_leb g) = firstn i (sort_by year_month_leb g') ->
  nth_error (add_features g) i = Some r ->
  nth_error (add_features g') i = Some r' ->
  f_anom_lag1 r = f_anom_lag1 r'
  /\ f_anom_lag12 r = f_anom_lag12 r'
  /\ f_anom_lag24 r = f_anom_lag24 r'
  /\ f_roll_mean_3 r = f_roll_mean_3 r'
  /\ f_roll_std_3 r = f_roll_std_3 r'
  /\ f_roll_mean_12 r = f_roll_mean_12 r'.
Proof.
  intros Hf Hr Hr'.
  apply add_features_nth in Hr. destruct Hr as (src & _ & ->).
  apply add_features_nth in Hr'. destruct Hr' as (src' & _ & ->).
  cbn [f_anom_lag1 f_anom_lag12 f_anom_lag24 f_roll_mean_3 f_roll_std_3 f_roll_mean_12].
  assert (Ha : firstn i (map a_anomaly_c (sort_by year_month_leb g))
               = firstn i (map a_anomaly_c (sort_by year_month_leb g')))
    by (now rewrite !firstn_map, Hf).
  repeat split; first [apply lagged_past; [lia | exact Ha] | apply rolled_past; exact Ha].
Qed.

(** X20.  Every row of the feature table comes from a row of the
    anomalies table of the same country and month that has at least
    twelve earlier rows and one later row of that country: its target is
    the (present) anomaly of the next row, its [anom_lag1] and
    [anom_lag12] are the anomalies one and twelve rows earlier.  So the
    chronologically last row of a country is never a feature row, and a
    table in which no country has more than 13 rows gives an empty
    feature table. *)
Theorem build_features_rows (drop_optional : bool) (df : list AnomRow) :
  (forall r, In r (ft_rows (build_features drop_optional df)) ->
     exists i src nxt v,
       let s := sort_by year_month_leb
                  (filter (fun x => String.eqb (a_country x) (f_country r)) df) in
       nth_error s i = Some src /\ nth_error s (S i) = Some nxt
       /\ (12 <= i)%nat
       /\ f_year r = a_year src /\ f_month r = a_month src
       /\ f_anomaly_c r = a_anomaly_c src
       /\ a_anomaly_c nxt = Some v /\ f_target_anom_t_plus_1 r = Some v
       /\ f_anom_lag1 r = nth (i - 1) (map a_anomaly_c s) None
       /\ f_anom_lag12 r = nth (i - 12) (map a_anomaly_c s) None)
  /\ ((forall c, (length (filter (fun x => String.eqb (a_country x) c) df) <= 13)%nat) ->
      ft_rows (build_features drop_optional df) = []).
Proof.
  assert (Hrow : forall r, In r (ft_rows (build_features drop_optional df)) ->
     exists i src nxt v,
       let s := sort_by year_month_leb
                  (filter (fun x => String.eqb (a_country x) (f_country r)) df) in
       nth_error s i = Some src /\ nth_error s (S i) = Some nxt
       /\ (12 <= i)%nat
       /\ f_year r = a_year src /\ f_month r = a_month src
       /\ f_anomaly_c r = a_anomaly_c src
       /\ a_anomaly_c nxt = Some v /\ f_target_anom_t_plus_1 r = Some v
       /\ f_anom_lag1 r = nth (i - 1) (map a_anomaly_c s) None
       /\ f_anom_lag12 r = nth (i - 12) (map a_anomaly_c s) None).
  { intros r Hr. unfold build_features in Hr. cbn [ft_rows] in Hr.
    apply filter_In in Hr. destruct Hr as [Hr Hcore].
    apply in_flat_map in Hr. destruct Hr as ([c g] & Hcg & Hr). cbn [snd] in Hr.
    unfold groupby_string in Hcg. apply in_map_iff in Hcg.
    destruct Hcg as (c' & Heq & _). inversion Heq; subst c' g; clear Heq.
    apply In_nth_error in Hr. destruct Hr as (i & Hr).
    apply add_features_nth in Hr. destruct Hr as (src & Hsrc & ->).
    assert (Hc : a_country src = c).
    { apply nth_error_In in Hsrc. apply sort_by_In in Hsrc.
      apply filter_In in Hsrc. destruct Hsrc as [_ Hc]. now apply String.eqb_eq. }
    cbn [f_country f_year f_month f_anomaly_c f_target_anom_t_plus_1 f_anom_lag1
         f_anom_lag12]. rewrite Hc. cbv zeta.
    set (s := sort_by year_month_leb (filter (fun x => String.eqb (a_country x) c) df)) in *.
    unfold core_complete in Hcore.
    cbn [f_anom_lag1 f_anom_lag12 f_roll_mean_3 f_roll_std_3 f_target_anom_t_plus_1]
      in Hcore.
    apply andb_prop in Hcore. destruct Hcore as [Hcore Htgt].
    apply andb_prop in Hcore. destruct Hcore as [Hcore _].
    apply andb_prop in Hcore. destruct Hcore as [Hcore _].
    apply andb_prop in Hcore. destruct Hcore as [_ Hl12].
    assert (H12 : (12 <= i)%nat).
    { unfold lagged in Hl12. destruct (i <? 12)%nat eqn:E; [discriminate Hl12|].
      now apply Nat.ltb_ge in E. }
    destruct (nth (S i) (map a_anomaly_c s) None) as [v|] eqn:Ev;
      [|discriminate Htgt].
    assert (Hlt : (S i < length s)%nat).
    { destruct (Nat.lt_ge_cases (S i) (length s)) as [Hl | Hl]; [exact Hl|].
      rewrite nth_overflow in Ev by (rewrite length_map; exact Hl). discriminate. }
    destruct (nth_error s (S i)) as [nxt|] eqn:En;
      [|apply nth_error_None in En; lia].
    assert (Hv : a_anomaly_c nxt = Some v).
    { rewrite <- Ev. symmetry.
      rewrite (nth_indep _ None (a_anomaly_c nxt)) by (rewrite length_map; exact Hlt).
      rewrite map_nth. f_equal. now apply nth_error_nth. }
    exists i, src, nxt, v.
    repeat split; try assumption; try reflexivity.
    - unfold lagged. now replace (i <? 1)%nat with false by (symmetry; apply Nat.ltb_ge; lia).
    - unfold lagged. now replace (i <? 12)%nat with false by (symmetry; apply Nat.ltb_ge; lia). }
  split; [exact Hrow|].
  intros Hshort.
  destruct (ft_rows (build_features drop_optional df)) as [| r t] eqn:E; [reflexivity|].
  exfalso.
  destruct (Hrow r (or_introl eq_refl)) as (i & src & nxt & v & _ & Hn & H12 & _).
  assert (Hlt : (S i < length (sort_by year_month_leb
                    (filter (fun x => String.eqb (a_country x) (f_country r)) df)))%nat)
    by (apply nth_error_Some; congruence).
  rewrite <- (Permutation_length (sort_by_perm _ _)) in Hlt.
  specialize (Hshort (f_country r)). lia.
Qed.

End FeatureBuilder.

Lemma features_read_only_the_past_witness :
  exists r r',
    nth_error (@add_features example_numerics (testland_series (7#5))) 14 = Some r
    /\ nth_error (@add_features example_numerics (testland_series (9#5))) 14 = Some r'
    /\ f_anom_lag1 r = f_anom_lag1 r'
    /\ f_anom_lag12 r = f_anom_lag12 r'
    /\ f_anom_lag24 r = f_anom_lag24 r'
    /\ f_roll_mean_3 r = f_roll_mean_3 r'
    /\ f_roll_std_3 r = f_roll_std_3 r'
    /\ f_roll_mean_12 r = f_roll_mean_12 r'.
Proof.
  destruct (nth_error (@add_features example_numerics (testland_series (7#5))) 14)
    as [r|] eqn:E; [| vm_compute in E; discriminate E].
  destruct (nth_error (@add_features example_numerics (testland_series (9#5))) 14)
    as [r'|] eqn:E'; [| vm_compute in E'; discriminate E'].
  exists r, r'. split; [reflexivity|]. split; [reflexivity|].
  apply (@features_read_only_the_past example_numerics
           (testland_series (7#5)) (testland_series (9#5)) 14 r r');
    [vm_compute; reflexivity | exact E | exact E'].
Defined.

(** *** The model fit *)

Section ModelFit.

Context `{Numerics} `{Sklearn}.

(** What the loop over the strengths returns: the initial pair when no
    strength has a defined score; otherwise the first strength, in list
    order, whose score is minimal among the defined ones. *)
Lemma select_spec {A : Type} (inj : Q -> A) (score : Q -> cell) (init : A)
    (alphas : list Q) :
  (fold_left (select_step inj score) alphas (init, None) = (init, None)
   /\ forall a, In a alphas -> score a = None)
  \/ (exists pre a post r,
        alphas = pre ++ a :: post
        /\ fold_left (select_step inj score) alphas (init, None) = (inj a, Some r)
        /\ score a = Some r
        /\ (forall g r', In g pre -> score g = Some r' -> (r < r')%Q)
        /\ (forall g r', In g post -> score g = Some r' -> (r <= r')%Q)).
Proof.
  induction alphas as [| x l IH] using rev_ind.
  - left. split; [reflexivity | intros g []].
  - rewrite fold_left_app. cbn [fold_left].
    destruct IH as [[Hres Hnone] | (pre & w & post & r & Hl & Hres & Hw & Hpre & Hpost)].
    + rewrite Hres. unfold select_step. cbn [snd].
      destruct (score x) as [rx|] eqn:Ex.
      * right. exists l, x, [], rx. repeat split; auto.
        -- intros g r' Hg Hr. rewrite (Hnone g Hg) in Hr. discriminate.
        -- intros g r' [].
      * left. split; [reflexivity|].
        intros g Hg. apply in_app_or in Hg. destruct Hg as [Hg | [<- | []]]; auto.
    + rewrite Hres. unfold select_step. cbn [snd].
      destruct (score x) as [rx|] eqn:Ex.
      * destruct (Qlt_bool rx r) eqn:Elt.
        -- apply Qlt_bool_iff in Elt.
           right. exists l, x, [], rx. repeat split; auto.
           ++ intros g r' Hg Hr. rewrite Hl in Hg.
              apply in_app_or in Hg. destruct Hg as [Hg | [<- | Hg]].
              ** specialize (Hpre g r' Hg Hr). lra.
              ** rewrite Hw in Hr. inversion Hr; subst. exact Elt.
              ** specialize (Hpost g r' Hg Hr). lra.
           ++ intros g r' [].
        -- apply Qlt_bool_false in Elt.
           right. exists pre, w, (post ++ [x]), r. repeat split; auto.
           ++ rewrite Hl, <- app_assoc. reflexivity.
           ++ intros g r' Hg Hr. apply in_app_or in Hg.
              destruct Hg as [Hg | [<- | []]]; [eauto|].
              rewrite Ex in Hr. inversion Hr; subst. exact Elt.
      * right. exists pre, w, (post ++ [x]), r. repeat split; auto.
        -- rewrite Hl, <- app_assoc. reflexivity.
        -- intros g r' Hg Hr. apply in_app_or in Hg.
           destruct Hg as [Hg | [<- | []]]; [eauto|]. congruence.
Qed.

(** The loop commutes with a map on the strength kept as best. *)
Lemma select_map {A B : Type} (f : A -> B) (inj : Q -> A) (score : Q -> cell)
    (alphas : list Q) (st : A * option Q) :
  fold_left (select_step (fun a => f (inj a)) score) alphas (f (fst st), snd st)
  = (f (fst (fold_left (select_step inj score) alphas st)),
     snd (fold_left (select_step inj score) alphas st)).
Proof.
  revert st. induction alphas as [| a l IH]; intros st; [reflexivity|].
  cbn [fold_left]. rewrite <- IH. f_equal.
  unfold select_step. destruct st as [x ob]. cbn [fst snd].
  destruct (score a) as [avg|]; [|reflexivity].
  destruct ob as [b|]; [|reflexivity].
  destruct (Qlt_bool avg b); reflexivity.
Qed.

(** X21.  The fit of the recursive forecaster.  Below 60 rows the
    strength is 1.0, whatever [alphas] holds.  From 60 rows on the fit
    raises when [alphas] has no member with a defined mean validation
    RMSE (in particular when it is empty: [best_alpha] is still [None]
    and [Ridge(alpha=None).fit] fails); otherwise the strength is the
    first member of [alphas] whose mean validation RMSE is minimal among
    the defined ones.  Whenever a model is returned, its scaler and its
    estimator are fitted on all rows. *)
Theorem recursive_fit_strength (X : list (list Q)) (y alphas : list Q) :
  (forall m, RidgeFit.fit_ridge_timeaware X y alphas = Some m ->
     m_scaler m = StandardScaler_fit X
     /\ m_estimator m = Ridge_fit (m_alpha m) (transform (StandardScaler_fit X) X) y)
  /\ ((length X < 60)%nat ->
      exists m, RidgeFit.fit_ridge_timeaware X y alphas = Some m
                /\ m_alpha m = Some 1%Q)
  /\ ((60 <= length X)%nat ->
      (RidgeFit.fit_ridge_timeaware X y alphas = None
       /\ forall a, In a alphas -> cv_rmse X y a = None)
      \/ (exists m pre a post r,
            RidgeFit.fit_ridge_timeaware X y alphas = Some m
            /\ alphas = pre ++ a :: post
            /\ m_alpha m = Some a
            /\ cv_rmse X y a = Some r
            /\ (forall g r', In g pre -> cv_rmse X y g = Some r' -> (r < r')%Q)
            /\ (forall g r', In g post -> cv_rmse X y g = Some r' -> (r <= r')%Q))).
Proof.
  unfold RidgeFit.fit_ridge_timeaware.
  destruct (length X <? 60)%nat eqn:E.
  - apply Nat.ltb_lt in E. split; [|split].
    + intros m Hm. inversion Hm. split; reflexivity.
    + intros _. eexists. split; reflexivity.
    + intros; lia.
  - apply Nat.ltb_ge in E. split; [|split].
    + intros m Hm.
      destruct (fst (fold_left (select_step Some (cv_rmse X y)) alphas (None, None)))
        as [a|]; [|discriminate].
      inversion Hm. split; reflexivity.
    + intros; lia.
    + intros _.
      destruct (select_spec Some (cv_rmse X y) None alphas)
        as [[Hres Hnone] | (pre & a & post & r & Hl & Hres & Ha & Hpre & Hpost)];
        rewrite Hres; cbn [fst].
      * left. split; [reflexivity | exact Hnone].
      * right. eexists _, pre, a, post, r. repeat split; auto.
Qed.

(** X22.  The fit of the direct forecaster.  An empty [alphas] raises
    (the [IndexError] of [alphas[0]]), whatever the number of rows.
    Otherwise the scaler and the estimator are fitted on all rows; below
    60 rows the strength is [alphas[0]]; from 60 rows on it is the first
    member of [alphas] whose mean validation RMSE is minimal among the
    defined ones, and [alphas[0]] when none is defined. *)
Theorem direct_fit_strength (X : list (list Q)) (y alphas : list Q) :
  (alphas = [] -> DirectFit.fit_ridge_timeaware X y alphas = None)
  /\ (forall a0 rest, alphas = a0 :: rest ->
      exists m,
        DirectFit.fit_ridge_timeaware X y alphas = Some m
        /\ m_scaler m = StandardScaler_fit X
        /\ m_estimator m = Ridge_fit (m_alpha m) (transform (StandardScaler_fit X) X) y
        /\ ((length X < 60)%nat -> m_alpha m = Some a0)
        /\ ((60 <= length X)%nat ->
            (m_alpha m = Some a0 /\ forall a, In a alphas -> cv_rmse X y a = None)
            \/ (exists pre a post r,
                  alphas = pre ++ a :: post
                  /\ m_alpha m = Some a
                  /\ cv_rmse X y a = Some r
                  /\ (forall g r', In g pre -> cv_rmse X y g = Some r' -> (r < r')%Q)
                  /\ (forall g r', In g post -> cv_rmse X y g = Some r' -> (r <= r')%Q)))).
Proof.
  split; [intros ->; reflexivity|].
  intros a0 rest ->. unfold DirectFit.fit_ridge_timeaware.
  destruct (length X <? 60)%nat eqn:E.
  - apply Nat.ltb_lt in E. eexists. split; [reflexivity|].
    cbn [m_scaler m_estimator m_alpha]. repeat split; try reflexivity. intros; lia.
  - apply Nat.ltb_ge in E. eexists. split; [reflexivity|].
    cbn [m_scaler m_estimator m_alpha].
    repeat split; try reflexivity; [intros; lia|]. intros _.
    destruct (select_spec (fun a => a) (cv_rmse X y) a0 (a0 :: rest))
      as [[Hres Hnone] | (pre & a & post & r & Hl & Hres & Ha & Hpre & Hpost)].
    + left. rewrite Hres. split; [reflexivity | exact Hnone].
    + right. exists pre, a, post, r. rewrite Hres. repeat split; auto.
Qed.

(** X23.  The two fits compared on the same data and a non-empty
    [alphas].  The direct fit always returns a model.  From 60 rows on,
    where the recursive fit returns a model the direct fit returns the
    same one (same scaler, strength and estimator), and where the
    recursive fit raises (no strength with a defined validation RMSE) the
    direct fit falls back to [alphas[0]].  Below 60 rows both fit the
    same scaler, the recursive fit with strength 1.0 and the direct fit
    with [alphas[0]]. *)
Theorem fits_compared (X : list (list Q)) (y : list Q) (a0 : Q) (rest : list Q) :
  exists d,
    DirectFit.fit_ridge_timeaware X y (a0 :: rest) = Some d
    /\ match RidgeFit.fit_ridge_timeaware X y (a0 :: rest) with
       | Some r =>
           if (length X <? 60)%nat
           then m_scaler d = m_scaler r /\ m_alpha r = Some 1%Q /\ m_alpha d = Some a0
           else d = r
       | None =>
           (60 <= length X)%nat /\ m_alpha d = Some a0
           /\ forall a, In a (a0 :: rest) -> cv_rmse X y a = None
       end.
Proof.
  unfold DirectFit.fit_ridge_timeaware, RidgeFit.fit_ridge_timeaware.
  destruct (length X <? 60)%nat eqn:E.
  - eexists. split; [reflexivity|]. cbn [m_scaler m_alpha]. repeat split.
  - eexists. split; [reflexivity|].
    pose proof (select_map (fun o : option Q => match o with Some a => a | None => a0 end)
                  Some (cv_rmse X y) (a0 :: rest) (None, None)) as Hm.
    cbn [fst snd] in Hm. rewrite Hm. cbn [fst].
    destruct (select_spec Some (cv_rmse X y) None (a0 :: rest))
      as [[Hres Hnone] | (pre & a & post & r & Hl & Hres & Ha & Hpre & Hpost)];
      rewrite Hres; cbn [fst m_alpha].
    + apply Nat.ltb_ge in E. split; [exact E|]. split; [reflexivity | exact Hnone].
    + reflexivity.
Qed.

End ModelFit.
